(** * welcome-discount-proxy: the [POST /api/subscribe] route

    A shallow embedding of [src/pages/api/subscribe.js] and the properties
    of its issuance workflow.

    Conventions of the embedding.
    - A JavaScript string is a [string]; its characters are read as the code
      points U+0000..U+00FF (Latin-1).  On that range [toLowerCase], [trim]
      and the regular-expression class [\s] are modelled exactly.  Beyond
      it [toLowerCase] depends on the context of a letter; [Wide] models
      it on the Greek letters as well.
    - A [Buffer] is a [list byte].
    - The commerce platform, the mail transport, the random generator, the
      clock, the URL parser and the HMAC primitive are outside the
      repository: they are the fields of a [World], and every definition
      of the route is parametrised by it.
    - Asynchronous functions are computations in the monad [M]: they thread
      the state of the world, list every outbound call they make, and
      either return a value or throw an [Error]. *)

From Stdlib Require Import String Ascii List Bool Arith NArith ZArith Lia.
From Stdlib Require Import Strings.Byte.
From Stdlib Require QArith.
Import ListNotations.
Open Scope list_scope.
Open Scope string_scope.

(* ================================================================== *)
(** * Part I: definitions                                              *)
(* ================================================================== *)

(** ** JavaScript strings *)

Module Js.

Definition code (c : ascii) : N := N_of_ascii c.

Definition chars (s : string) : list ascii := list_ascii_of_string s.
Definition str (l : list ascii) : string := string_of_list_ascii l.

(** [WhiteSpace] and [LineTerminator] below U+0100: TAB, LF, VT, FF, CR,
    SP and NBSP.  This is the class [\s] and the set [trim] strips. *)
Definition is_space (c : ascii) : bool :=
  let n := code c in
  ((9 <=? n) && (n <=? 13) || (n =? 32) || (n =? 160))%N.

(** Characters below U+0100 that have a distinct lower-case form. *)
Definition is_upper (c : ascii) : bool :=
  let n := code c in
  ((65 <=? n) && (n <=? 90) || (192 <=? n) && (n <=? 222) && negb (n =? 215))%N.

Definition lower_char (c : ascii) : ascii :=
  if is_upper c then ascii_of_N (code c + 32) else c.

(** [a]..[z]; [toUpperCase] is only ever applied to hexadecimal digits. *)
Definition is_ascii_lower (c : ascii) : bool :=
  let n := code c in ((97 <=? n) && (n <=? 122))%N.

Definition upper_char (c : ascii) : ascii :=
  if is_ascii_lower c then ascii_of_N (code c - 32) else c.

Definition toLowerCase (s : string) : string := str (map lower_char (chars s)).
Definition toUpperCase (s : string) : string := str (map upper_char (chars s)).

Fixpoint drop_spaces (l : list ascii) : list ascii :=
  match l with
  | c :: l' => if is_space c then drop_spaces l' else l
  | [] => []
  end.

Definition trim_chars (l : list ascii) : list ascii :=
  rev (drop_spaces (rev (drop_spaces l))).

Definition trim (s : string) : string := str (trim_chars (chars s)).

(** [s.includes(t)] *)
Fixpoint starts_with (t l : list ascii) : bool :=
  match t, l with
  | [], _ => true
  | a :: t', b :: l' => Ascii.eqb a b && starts_with t' l'
  | _ :: _, [] => false
  end.

Fixpoint includes_chars (l t : list ascii) : bool :=
  starts_with t l ||
  match l with
  | [] => false
  | _ :: l' => includes_chars l' t
  end.

Definition includes (s t : string) : bool := includes_chars (chars s) (chars t).

(** Truthiness of a string: non-empty. *)
Definition truthy (s : string) : bool := negb (s =? "").

(** [arr.join(sep)] on an array of strings. *)
Fixpoint join (sep : string) (l : list string) : string :=
  match l with
  | [] => ""
  | [x] => x
  | x :: rest => x ++ sep ++ join sep rest
  end.

(** The value of a field of a parsed JSON body: absent, [null], a string,
    or any other value (a boolean, a number, an array, an object), kept
    to its truthiness and to what [String] makes of it. *)
Inductive value :=
| Undefined
| Null
| Str (s : string)
| Other (truthy : bool) (rendered : string).

(** [value || ''] followed by [String(...)]. *)
Definition or_empty_String (v : value) : string :=
  match v with
  | Undefined | Null => ""
  | Str s => s
  | Other truthy rendered => if truthy then rendered else ""
  end.

End Js.

(** ** Buffers and the [hex] encoding *)

Module Hex.

Definition digit (n : N) : ascii :=
  if (n <? 10)%N then ascii_of_N (48 + n) else ascii_of_N (87 + n).

(** Value of a hexadecimal digit, either case; [None] for any other
    character. *)
Definition digit_value (c : ascii) : option N :=
  let n := N_of_ascii c in
  if ((48 <=? n) && (n <=? 57))%N then Some (n - 48)%N
  else if ((97 <=? n) && (n <=? 102))%N then Some (n - 87)%N
  else if ((65 <=? n) && (n <=? 70))%N then Some (n - 55)%N
  else None.

Definition encode_byte (b : byte) : list ascii :=
  let n := Byte.to_N b in [digit (N.div n 16); digit (N.modulo n 16)].

(** [buf.toString('hex')]: two lower-case digits per byte. *)
Definition encode (buf : list byte) : string :=
  Js.str (flat_map encode_byte buf).

Definition byte_of_nibbles (hi lo : N) : byte :=
  match Byte.of_N (16 * hi + lo) with
  | Some b => b
  | None => x00
  end.

(** [Buffer.from(s, 'hex')]: decoding stops, keeping the bytes read so
    far, at the first pair that is not two hexadecimal digits; a trailing
    single character is dropped. *)
Fixpoint decode_chars (l : list ascii) : list byte :=
  match l with
  | a :: b :: rest =>
      match digit_value a, digit_value b with
      | Some hi, Some lo => byte_of_nibbles hi lo :: decode_chars rest
      | _, _ => []
      end
  | _ => []
  end.

Definition decode (s : string) : list byte := decode_chars (Js.chars s).

End Hex.

(** ** Regular expressions

    The fragment of the regular-expression language the route uses:
    character classes, concatenation, alternation and iteration, matched
    against the whole string (the pattern is anchored by [^] and [$]).
    [test] decides a match by Brzozowski derivatives. *)

Module Regex.

Inductive t :=
| Empty
| Eps
| Class (p : ascii -> bool)
| Cat (r1 r2 : t)
| Alt (r1 r2 : t)
| Star (r : t).

(** [r+] *)
Definition Plus (r : t) : t := Cat r (Star r).

(** A literal character. *)
Definition Chr (c : ascii) : t := Class (Ascii.eqb c).

Fixpoint nullable (r : t) : bool :=
  match r with
  | Empty => false
  | Eps => true
  | Class _ => false
  | Cat r1 r2 => nullable r1 && nullable r2
  | Alt r1 r2 => nullable r1 || nullable r2
  | Star _ => true
  end.

Fixpoint deriv (c : ascii) (r : t) : t :=
  match r with
  | Empty => Empty
  | Eps => Empty
  | Class p => if p c then Eps else Empty
  | Cat r1 r2 =>
      if nullable r1
      then Alt (Cat (deriv c r1) r2) (deriv c r2)
      else Cat (deriv c r1) r2
  | Alt r1 r2 => Alt (deriv c r1) (deriv c r2)
  | Star r1 => Cat (deriv c r1) (Star r1)
  end.

Fixpoint test_chars (r : t) (l : list ascii) : bool :=
  match l with
  | [] => nullable r
  | c :: l' => test_chars (deriv c r) l'
  end.

(** [/^r$/.test(s)] *)
Definition test (r : t) (s : string) : bool := test_chars r (Js.chars s).

(** The language of a regular expression. *)
Inductive Matches : t -> list ascii -> Prop :=
| MEps : Matches Eps []
| MClass p c : p c = true -> Matches (Class p) [c]
| MCat r1 r2 l1 l2 : Matches r1 l1 -> Matches r2 l2 -> Matches (Cat r1 r2) (l1 ++ l2)%list
| MAltL r1 r2 l : Matches r1 l -> Matches (Alt r1 r2) l
| MAltR r1 r2 l : Matches r2 l -> Matches (Alt r1 r2) l
| MStarNil r : Matches (Star r) []
| MStarCons r l1 l2 : Matches r l1 -> Matches (Star r) l2 -> Matches (Star r) (l1 ++ l2)%list.

End Regex.

(** ** The boundary of the route *)

(** A thrown [Error], kept to its [message]. *)
Record Error := mkError { message : string }.

(** The inbound request: [req.method], [req.headers.host], [req.url] and
    the value of [req.body?.email]. *)
Record Request := mkRequest {
  method : string;
  host : option string;
  url : string;
  body_email : Js.value
}.

(** [res.status(s).json({ ok, message })] *)
Record Response := mkResponse {
  status : nat;
  ok : bool;
  body_message : string
}.

(** The part of a parsed [URL] the verifier reads.  [searchParams] keeps
    the order and the duplicates of the query string. *)
Record URL := mkURL {
  pathname : string;
  searchParams : list (string * string)
}.

(** [process.env], kept to the variables read by the code of the route
    itself.  A variable that is not set is [None].  The others (shop,
    API version, access token, SMTP host and credentials) address the two
    outbound boundaries and are part of the [World]. *)
Record Env := mkEnv {
  APP_PROXY_SIGNING_SECRET : option string;
  EMAIL_FROM : option string
}.

(** [edges { node { id email metafield(namespace:"welcome", key:"code"){ value } } } ] *)
Record CustomerNode := mkCustomerNode {
  node_id : string;
  node_email : string;
  metafield : option string
}.

(** [customerCreate(input:$input){ customer{ id email } userErrors{ message field } }],
    with [userErrors] kept to the messages. *)
Record CustomerCreatePayload := mkCustomerCreatePayload {
  customer : option string;
  customerCreate_userErrors : list string
}.

(** [DiscountCodeBasicInput] as the route fills it.  [endsAt] is a field
    of the platform's input type that the route never sets. *)
Record DiscountCodeBasicInput := mkDiscountInput {
  title : string;
  startsAt : string;
  endsAt : option string;
  usageLimit : nat;
  appliesOncePerCustomer : bool;
  customerSelection_all : bool;
  customerGets_value_percentage : QArith_base.Q;
  customerGets_items_all : bool;
  code : string
}.

(** [discountCodeBasicCreate]: [codes] is the result of the optional chain
    [codeDiscountNode?.codeDiscount?.codes?.edges], mapped to the codes of
    its nodes; [None] when a link of the chain is absent. *)
Record DiscountCreatePayload := mkDiscountCreatePayload {
  codes : option (list string);
  discountCreate_userErrors : list string
}.

(** The single element of [metafields] sent by [metafieldsSet]. *)
Record MetafieldsSetInput := mkMetafieldsSetInput {
  ownerId : string;
  namespace : string;
  key : string;
  type : string;
  value : string
}.

Record Mail := mkMail {
  from : option string;
  to : string;
  subject : string;
  html : string
}.

(** What [fetch] followed by [r.json()] gives: a rejection, or a response
    with [r.ok], the rendering of [data.errors] when it is present, the
    rendering of the whole body, and [data.data]. *)
Inductive Fetched (D : Type) :=
| Rejected (e : Error)
| Responded (r_ok : bool) (errors : option string) (body : string) (data : D).
Arguments Rejected {D} e.
Arguments Responded {D} r_ok errors body data.

(** Outbound calls and log lines, in the order the route makes them. *)
Inductive Event :=
| CustomersQuery (q : string)
| CustomerCreate (email : string)
| OrdersQuery (q : string)
| RandomBytes (n : nat)
| DiscountCodeBasicCreate (input : DiscountCodeBasicInput)
| MetafieldsSet (m : MetafieldsSetInput)
| SendMail (mail : Mail)
| ConsoleError (e : Error).

(** Everything the route relies on and does not define. *)
Record World := mkWorld {
  state : Type;
  env : Env;
  (** [new URL(s)]; [None] when it throws *)
  URL_parse : string -> option URL;
  (** [url.searchParams.toString()] *)
  URLSearchParams_toString : list (string * string) -> string;
  (** [crypto.createHmac('sha256', key).update(msg, 'utf8').digest()] *)
  hmac_sha256 : string -> string -> list byte;
  fetch_customers : string -> state -> Fetched (list CustomerNode) * state;
  fetch_customerCreate : string -> state -> Fetched CustomerCreatePayload * state;
  fetch_orders : string -> state -> Fetched (list string) * state;
  fetch_discountCodeBasicCreate :
    DiscountCodeBasicInput -> state -> Fetched DiscountCreatePayload * state;
  fetch_metafieldsSet : MetafieldsSetInput -> state -> Fetched (list string) * state;
  (** [transport.sendMail(mail)]; [Some e] when it rejects *)
  sendMail : Mail -> state -> option Error * state;
  (** [crypto.randomBytes(3)] *)
  randomBytes3 : state -> (byte * byte * byte) * state;
  (** [new Date().toISOString()] *)
  now_toISOString : state -> string
}.

(** ** Computations *)

Inductive Outcome (A : Type) :=
| Return (a : A)
| Throw (e : Error).
Arguments Return {A} a.
Arguments Throw {A} e.

Section Route.

Variable W : World.

(** A computation: from a state of the world to an outcome, the state the
    world is left in, and the calls made on the way, oldest first. *)
Definition M (A : Type) : Type := state W -> Outcome A * state W * list Event.

Definition ret {A} (a : A) : M A := fun w => (Return a, w, []).

Definition throw {A} (e : Error) : M A := fun w => (Throw e, w, []).

Definition bind {A B} (m : M A) (k : A -> M B) : M B :=
  fun w =>
    match m w with
    | (Return a, w1, d1) =>
        match k a w1 with
        | (r, w2, d2) => (r, w2, (d1 ++ d2)%list)
        end
    | (Throw e, w1, d1) => (Throw e, w1, d1)
    end.

(** [try { m } catch (e) { h e }] *)
Definition try_catch {A} (m : M A) (h : Error -> M A) : M A :=
  fun w =>
    match m w with
    | (Return a, w1, d1) => (Return a, w1, d1)
    | (Throw e, w1, d1) =>
        match h e w1 with
        | (r, w2, d2) => (r, w2, (d1 ++ d2)%list)
        end
    end.

(** An outbound call: the world answers and moves on, the call is
    recorded. *)
Definition perform {A} (ev : Event) (call : state W -> A * state W) : M A :=
  fun w => let (a, w') := call w in (Return a, w', [ev]).

(** Reading the world without calling out. *)
Definition observe {A} (f : state W -> A) : M A :=
  fun w => (Return (f w), w, []).

End Route.

Arguments ret {W A} a.
Arguments throw {W A} e.
Arguments bind {W A B} m k.
Arguments try_catch {W A} m h.
Arguments perform {W A} ev call.
Arguments observe {W A} f.

Notation "x <- m ;; k" := (bind m (fun x => k))
  (at level 61, m at next level, right associativity).
Notation "m ;;; k" := (bind m (fun _ => k))
  (at level 61, right associativity).

(** ** The route *)

Section Subscribe.

Variable W : World.

(** *** [verifyProxySignature] *)

(** [url.searchParams.get(name)]: the first value under [name]. *)
Fixpoint searchParams_get (name : string) (ps : list (string * string)) : option string :=
  match ps with
  | [] => None
  | (k, v) :: rest => if k =? name then Some v else searchParams_get name rest
  end.

(** [url.searchParams.delete(name)]: every pair under [name] goes, the
    others keep their order. *)
Definition searchParams_delete (name : string) (ps : list (string * string)) :
  list (string * string) :=
  filter (fun kv => negb (fst kv =? name)) ps.

Fixpoint bytes_eqb (a b : list byte) : bool :=
  match a, b with
  | [], [] => true
  | x :: a', y :: b' => Byte.eqb x y && bytes_eqb a' b'
  | _, _ => false
  end.

(** [crypto.timingSafeEqual(a, b)]; [None] is the [RangeError] thrown on
    buffers of different lengths. *)
Definition timingSafeEqual (a b : list byte) : option bool :=
  if Nat.eqb (length a) (length b) then Some (bytes_eqb a b) else None.

(** A template literal renders an absent header as [undefined]. *)
Definition template_hole (v : option string) : string :=
  match v with
  | Some s => s
  | None => "undefined"
  end.

(** The string the HMAC is computed over, once [signature] is removed. *)
Definition signature_base (u : URL) : string :=
  let rest := URLSearchParams_toString W (searchParams_delete "signature" (searchParams u)) in
  pathname u ++ (if Js.truthy rest then "?" ++ rest else "").

(** Every [None] below is an exception caught by the [catch] of the
    function, which returns [false]. *)
Definition verifyProxySignature (req : Request) : bool :=
  match URL_parse W ("https://" ++ template_hole (host req) ++ url req) with
  | None => false
  | Some u =>
      match searchParams_get "signature" (searchParams u) with
      | None => false
      | Some signature =>
          if negb (Js.truthy signature) then false
          else
            match APP_PROXY_SIGNING_SECRET (env W) with
            | None => false
            | Some secret =>
                let expected := Hex.encode (hmac_sha256 W secret (signature_base u)) in
                match timingSafeEqual (Hex.decode signature) (Hex.decode expected) with
                | Some b => b
                | None => false
                end
            end
      end
  end.

(** *** [shopifyGQL]

    The GraphQL documents are constants of each operation; an operation is
    recorded by its name and its variables. *)
Definition shopifyGQL {D} (op : Event) (call : state W -> Fetched D * state W) : M W D :=
  r <- perform op call ;;
  match r with
  | Rejected e => throw e
  | Responded r_ok errors body data =>
      match errors with
      | Some rendered => throw (mkError rendered)
      | None => if negb r_ok then throw (mkError body) else ret data
      end
  end.

(** *** [emailHasAnyOrders] *)

Definition orders_search (email : string) : string :=
  "email:" ++ email ++ " AND (fulfillment_status:unfulfilled OR fulfillment_status:fulfilled)".

Definition emailHasAnyOrders (email : string) : M W bool :=
  let q := orders_search email in
  edges <- shopifyGQL (OrdersQuery q) (fetch_orders W q) ;;
  ret (Nat.ltb 0 (length edges)).

(** *** [makeCode] *)

Definition code_of_bytes (r : byte * byte * byte) : string :=
  let '(b1, b2, b3) := r in
  "WELCOME-" ++ Js.toUpperCase (Hex.encode [b1; b2; b3]).

Definition makeCode : M W string :=
  r <- perform (RandomBytes 3) (randomBytes3 W) ;;
  ret (code_of_bytes r).

(** *** [createOneTimeTenPercent] *)

Definition discount_input (now code : string) : DiscountCodeBasicInput :=
  {| title := "Welcome 10% - First Purchase";
     startsAt := now;
     endsAt := None;
     usageLimit := 1;
     appliesOncePerCustomer := true;
     customerSelection_all := true;
     customerGets_value_percentage := QArith_base.Qmake 1%Z 10%positive;
     customerGets_items_all := true;
     code := code |}.

(** [codes?.edges?.[0]?.node?.code || code] *)
Definition returned_code (out : DiscountCreatePayload) (code : string) : string :=
  match codes out with
  | Some (c :: _) => if Js.truthy c then c else code
  | _ => code
  end.

Definition createOneTimeTenPercent (code : string) : M W string :=
  now <- observe (now_toISOString W) ;;
  let input := discount_input now code in
  out <- shopifyGQL (DiscountCodeBasicCreate input) (fetch_discountCodeBasicCreate W input) ;;
  let errs := discountCreate_userErrors out in
  if Nat.ltb 0 (length errs) then throw (mkError (Js.join ", " errs))
  else ret (returned_code out code).

(** *** [getCustomerAndExistingCode] *)

Record CustomerAndCode := mkCustomerAndCode {
  id : string;
  existingCode : option string
}.

(** [edge.node.metafield?.value || null] *)
Definition value_or_null (m : option string) : option string :=
  match m with
  | Some v => if Js.truthy v then Some v else None
  | None => None
  end.

Definition customers_search (email : string) : string := "email:" ++ email.

Definition getCustomerAndExistingCode (email : string) : M W CustomerAndCode :=
  let q := customers_search email in
  edges <- shopifyGQL (CustomersQuery q) (fetch_customers W q) ;;
  match edges with
  | edge :: _ =>
      ret {| id := node_id edge; existingCode := value_or_null (metafield edge) |}
  | [] =>
      out <- shopifyGQL (CustomerCreate email) (fetch_customerCreate W email) ;;
      let errs := customerCreate_userErrors out in
      if Nat.ltb 0 (length errs) then throw (mkError (Js.join ", " errs))
      else
        match customer out with
        | Some i => ret {| id := i; existingCode := None |}
        | None => throw (mkError "Cannot read properties of null (reading 'id')")
        end
  end.

(** *** [setCustomerCodeMetafield] *)

Definition code_metafield (customerId code : string) : MetafieldsSetInput :=
  {| ownerId := customerId;
     namespace := "welcome";
     key := "code";
     type := "single_line_text_field";
     value := code |}.

Definition setCustomerCodeMetafield (customerId code : string) : M W unit :=
  let m := code_metafield customerId code in
  errs <- shopifyGQL (MetafieldsSet m) (fetch_metafieldsSet W m) ;;
  if Nat.ltb 0 (length errs) then throw (mkError (Js.join ", " errs))
  else ret tt.

(** *** [sendCodeEmail] *)

Definition dq : string := String "034"%char EmptyString.
Definition nl : string := String "010"%char EmptyString.
(** U+1F389, as its UTF-8 bytes *)
Definition tada : string :=
  String "240"%char (String "159"%char (String "142"%char (String "137"%char EmptyString))).

Definition code_email_html (code : string) : string :=
  nl ++ "    <div style=" ++ dq ++ "font-family:Arial,Helvetica,sans-serif;line-height:1.6" ++ dq ++ ">"
  ++ nl ++ "      <h2>Welcome to Tiadem " ++ tada ++ "</h2>"
  ++ nl ++ "      <p>Your one-time <b>10% discount</b> code:</p>"
  ++ nl ++ "      <p style=" ++ dq ++ "font-size:20px;font-weight:700;letter-spacing:.1em" ++ dq ++ ">"
  ++ code ++ "</p>"
  ++ nl ++ "      <p>Apply at checkout. Single use only.</p>"
  ++ nl ++ "      <p><a href=" ++ dq ++ "https://tiadem.com.au" ++ dq ++ ">Shop now</a></p>"
  ++ nl ++ "    </div>".

Definition code_email (to code : string) : Mail :=
  {| from := EMAIL_FROM (env W);
     to := to;
     subject := "Your 10% welcome code";
     html := code_email_html code |}.

Definition sendCodeEmail (to code : string) : M W unit :=
  let mail := code_email to code in
  r <- perform (SendMail mail) (sendMail W mail) ;;
  match r with
  | Some e => throw e
  | None => ret tt
  end.

(** *** [handler] *)

(** [/^[^\s@]+@[^\s@]+\.[^\s@]+$/] *)
Definition not_space_or_at (c : ascii) : bool :=
  negb (Js.is_space c || Ascii.eqb c "@").

Definition email_pattern : Regex.t :=
  Regex.Cat (Regex.Plus (Regex.Class not_space_or_at))
    (Regex.Cat (Regex.Chr "@")
       (Regex.Cat (Regex.Plus (Regex.Class not_space_or_at))
          (Regex.Cat (Regex.Chr ".")
             (Regex.Plus (Regex.Class not_space_or_at))))).

(** [String(req.body?.email || '').trim().toLowerCase()] *)
Definition request_email (req : Request) : string :=
  Js.toLowerCase (Js.trim (Js.or_empty_String (body_email req))).

(** [!email || !pattern.test(email)] *)
Definition email_rejected (email : string) : bool :=
  negb (Js.truthy email) || negb (Regex.test email_pattern email).

(** [String(e.message).toLowerCase().includes('has already been taken')] *)
Definition already_taken (e : Error) : bool :=
  Js.includes (Js.toLowerCase (message e)) "has already been taken".

(** One pass through the body of the loop: [Some code] when [ok] was set,
    [None] when the error was a collision and the loop goes on. *)
Definition mint_attempt : M W (option string) :=
  try_catch
    (candidate <- makeCode ;;
     code <- createOneTimeTenPercent candidate ;;
     ret (Some code))
    (fun e => if negb (already_taken e) then throw e else ret None).

(** [while (!ok && tries < 5) { tries++; ... }], by recursion on the
    number [5 - tries] of attempts left.  [None] is the exit with [ok]
    still [false]. *)
Fixpoint mint_loop (left : nat) : M W (option string) :=
  match left with
  | O => ret None
  | S left' =>
      r <- mint_attempt ;;
      match r with
      | Some code => ret (Some code)
      | None => mint_loop left'
      end
  end.

Definition json (s : nat) (o : bool) (m : string) : M W Response :=
  ret {| status := s; ok := o; body_message := m |}.

Definition console_error (e : Error) : M W unit :=
  perform (ConsoleError e) (fun w => (tt, w)).

Definition handler (req : Request) : M W Response :=
  try_catch
    (if negb (method req =? "POST") then json 405 false "Method not allowed"
     else if negb (verifyProxySignature req) then json 401 false "Unauthorised"
     else
       let email := request_email req in
       if email_rejected email then json 400 false "Please enter a valid email."
       else
         found <- getCustomerAndExistingCode email ;;
         match existingCode found with
         | Some existing =>
             sendCodeEmail email existing ;;;
             json 200 true "Code already issued; re-sent to your email."
         | None =>
             blocked <- emailHasAnyOrders email ;;
             if blocked
             then json 409 false "Coupon codes are for first purchase only."
             else
               minted <- mint_loop 5 ;;
               match minted with
               | None => throw (mkError "Could not mint unique code")
               | Some code =>
                   setCustomerCodeMetafield (id found) code ;;;
                   sendCodeEmail email code ;;;
                   json 200 true "Your 10% code has been emailed."
               end
         end)
    (fun e =>
       console_error e ;;;
       json 500 false "Server error. Please try again later.").

End Subscribe.

(** ** A model of the world

    A small shop, a mail transport that is up or down, and scripted
    randomness, used to run the route on concrete requests.  The search
    evaluates the two query shapes the route sends and compares a
    fulfillment status literally, which settles nothing about what the
    search of the platform matches; the keyed digest is a stand-in of the
    right length, not SHA-256; the URL parser reads
    [https://host/path?k=v&k=v] without any decoding. *)

Module Shop.

Record Customer := mkCustomer {
  customer_id : string;
  customer_email : string;
  welcome_code : option string
}.

Record Order := mkOrder {
  order_id : string;
  order_email : string;
  fulfillment_status : string
}.

Record t := mk {
  customers : list Customer;
  orders : list Order;
  discounts : list string;
  entropy : list (byte * byte * byte);
  smtp_up : bool;
  graphql_up : bool;
  outbox : list Mail
}.

Fixpoint digits_of (fuel : nat) (n : N) (acc : list ascii) : list ascii :=
  match fuel with
  | O => acc
  | S f =>
      let d := ascii_of_N (48 + N.modulo n 10) in
      if (n <? 10)%N then d :: acc else digits_of f (N.div n 10) (d :: acc)
  end.

(** The decimal numeral of [n], for the identifiers the shop gives out. *)
Definition decimal (n : N) : string :=
  Js.str (digits_of (S (N.to_nat (N.log2 n))) n []).

Fixpoint split_on (c : ascii) (l : list ascii) : list (list ascii) :=
  match l with
  | [] => [[]]
  | x :: l' =>
      let r := split_on c l' in
      if Ascii.eqb x c then [] :: r
      else match r with
           | h :: t => (x :: h) :: t
           | [] => [[x]]
           end
  end.

(** [field:value] *)
Definition term (l : list ascii) : string * string :=
  match split_on ":" l with
  | f :: v :: _ => (Js.str f, Js.str v)
  | _ => (Js.str l, "")
  end.

Definition order_term (o : Order) (l : list ascii) : bool :=
  let (f, v) := term l in
  if f =? "email" then order_email o =? v
  else if f =? "fulfillment_status" then fulfillment_status o =? v
  else false.

(** [t1 AND (t2 OR t3)] *)
Definition order_matches (q : string) (o : Order) : bool :=
  match split_on " " (Js.chars q) with
  | [t1; a; lp :: t2; b; t3] =>
      (Js.str a =? "AND") && (Js.str b =? "OR") && Ascii.eqb lp "(" &&
      Ascii.eqb (last t3 " "%char) ")" &&
      order_term o t1 && (order_term o t2 || order_term o (removelast t3))
  | _ => false
  end.

Definition customer_matches (q : string) (c : Customer) : bool :=
  let (f, v) := term (Js.chars q) in
  (f =? "email") && (customer_email c =? v).

Definition down {D} (s : t) : Fetched D * t :=
  (Rejected (mkError "fetch failed"), s).

Definition answer {D} (d : D) (s : t) : Fetched D * t :=
  (Responded true None "" d, s).

Definition customers_query (q : string) (s : t) : Fetched (list CustomerNode) * t :=
  if negb (graphql_up s) then down s
  else
    answer
      (map (fun c => mkCustomerNode (customer_id c) (customer_email c) (welcome_code c))
           (firstn 1 (filter (customer_matches q) (customers s))))
      s.

Definition customer_create (email : string) (s : t) : Fetched CustomerCreatePayload * t :=
  if negb (graphql_up s) then down s
  else if existsb (fun c => customer_email c =? email) (customers s)
  then answer (mkCustomerCreatePayload None ["Email has already been taken"]) s
  else
    let i := "gid://shopify/Customer/" ++ decimal (N.of_nat (S (length (customers s)))) in
    answer (mkCustomerCreatePayload (Some i) [])
      (mk (customers s ++ [mkCustomer i email None])%list (orders s) (discounts s)
          (entropy s) (smtp_up s) (graphql_up s) (outbox s)).

Definition orders_query (q : string) (s : t) : Fetched (list string) * t :=
  if negb (graphql_up s) then down s
  else answer (map order_id (firstn 1 (filter (order_matches q) (orders s)))) s.

Definition discount_create (input : DiscountCodeBasicInput) (s : t) :
  Fetched DiscountCreatePayload * t :=
  if negb (graphql_up s) then down s
  else if existsb (String.eqb (code input)) (discounts s)
  then answer (mkDiscountCreatePayload None ["Code has already been taken"]) s
  else
    answer (mkDiscountCreatePayload (Some [code input]) [])
      (mk (customers s) (orders s) (discounts s ++ [code input])%list
          (entropy s) (smtp_up s) (graphql_up s) (outbox s)).

Definition set_code (m : MetafieldsSetInput) (c : Customer) : Customer :=
  if customer_id c =? ownerId m
  then mkCustomer (customer_id c) (customer_email c) (Some (value m))
  else c.

Definition metafields_set (m : MetafieldsSetInput) (s : t) : Fetched (list string) * t :=
  if negb (graphql_up s) then down s
  else
    answer []
      (mk (map (set_code m) (customers s)) (orders s) (discounts s)
          (entropy s) (smtp_up s) (graphql_up s) (outbox s)).

Definition send_mail (mail : Mail) (s : t) : option Error * t :=
  if smtp_up s
  then (None, mk (customers s) (orders s) (discounts s) (entropy s)
                 (smtp_up s) (graphql_up s) (outbox s ++ [mail])%list)
  else (Some (mkError "connect ECONNREFUSED"), s).

Definition random_bytes3 (s : t) : (byte * byte * byte) * t :=
  match entropy s with
  | r :: rest =>
      (r, mk (customers s) (orders s) (discounts s) rest
             (smtp_up s) (graphql_up s) (outbox s))
  | [] => ((x00, x00, x00), s)
  end.

Definition pair_of (l : list ascii) : string * string :=
  match split_on "=" l with
  | k :: v :: _ => (Js.str k, Js.str v)
  | _ => (Js.str l, "")
  end.

Definition parse_url (s : string) : option URL :=
  let l := Js.chars s in
  if negb (Js.starts_with (Js.chars "https://") l) then None
  else
    match split_on "/" (skipn 8 l) with
    | [] | [_] => None
    | h :: _ =>
        let rest := skipn (length h) (skipn 8 l) in
        match split_on "?" rest with
        | [p] => Some (mkURL (Js.str p) [])
        | p :: q :: _ => Some (mkURL (Js.str p) (map pair_of (split_on "&" q)))
        | [] => None
        end
    end.

Definition params_to_string (ps : list (string * string)) : string :=
  Js.join "&" (map (fun kv => fst kv ++ "=" ++ snd kv) ps).

Definition checksum (s : string) : N :=
  fold_left (fun acc c => (acc * 31 + N_of_ascii c) mod 65521)%N (Js.chars s) 7%N.

Definition keyed_digest (k msg : string) : list byte :=
  map (fun i => Hex.byte_of_nibbles 0 ((checksum k * 17 + checksum msg * 13 + N.of_nat i) mod 256)%N)
      (seq 0 32).

Definition world (e : Env) : World :=
  {| state := t;
     env := e;
     URL_parse := parse_url;
     URLSearchParams_toString := params_to_string;
     hmac_sha256 := keyed_digest;
     fetch_customers := customers_query;
     fetch_customerCreate := customer_create;
     fetch_orders := orders_query;
     fetch_discountCodeBasicCreate := discount_create;
     fetch_metafieldsSet := metafields_set;
     sendMail := send_mail;
     randomBytes3 := random_bytes3;
     now_toISOString := fun _ => "2024-07-01T00:00:00.000Z" |}.

Definition the_env : Env :=
  {| APP_PROXY_SIGNING_SECRET := Some "shhh"; EMAIL_FROM := Some "hello@tiadem.com.au" |}.

Definition sign (base : string) : string := Hex.encode (keyed_digest "shhh" base).

(** A correctly signed [POST] carrying [email]. *)
Definition signed_post (email : Js.value) : Request :=
  {| method := "POST";
     host := Some "tiadem.com.au";
     url := "/apps/welcome?shop=tiadem&signature=" ++ sign "/apps/welcome?shop=tiadem";
     body_email := email |}.

Definition empty : t :=
  {| customers := []; orders := []; discounts := []; entropy := [];
     smtp_up := true; graphql_up := true; outbox := [] |}.

End Shop.

(** ** The vocabulary of the properties *)


(** What the pattern accepts: [local @ domain . tld], the three parts
    non-empty and free of white space and of [@]. *)
Definition well_formed (l : list ascii) : Prop :=
  exists a b c,
    l = (a ++ "@"%char :: b ++ "."%char :: c)%list /\
    a <> [] /\ b <> [] /\ c <> [] /\
    forallb not_space_or_at a = true /\
    forallb not_space_or_at b = true /\
    forallb not_space_or_at c = true.

(** The part of an address after its first [@]. *)
Fixpoint domain (l : list ascii) : list ascii :=
  match l with
  | [] => []
  | c :: l' => if Ascii.eqb c "@" then l' else domain l'
  end.

(** Empty, without [@], or without a dot in the domain. *)
Definition malformed (email : string) : Prop :=
  email = "" \/
  ~ In "@"%char (Js.chars email) \/
  ~ In "."%char (domain (Js.chars email)).

Definition sent_mails (d : list Event) : list Mail :=
  flat_map (fun ev => match ev with SendMail m => [m] | _ => [] end) d.

(** Calls of the Code Minter: a candidate is drawn, a discount is
    created. *)
Definition is_minter_call (ev : Event) : bool :=
  match ev with
  | RandomBytes _ | DiscountCodeBasicCreate _ => true
  | _ => false
  end.

Definition minter_calls (d : list Event) : list Event := filter is_minter_call d.

Definition is_creation (ev : Event) : bool :=
  match ev with
  | DiscountCodeBasicCreate _ => true
  | _ => false
  end.

Definition creations (d : list Event) : nat := length (filter is_creation d).

Definition is_metafield_write (ev : Event) : bool :=
  match ev with
  | MetafieldsSet _ => true
  | _ => false
  end.

Definition resent_ok : Response :=
  {| status := 200; ok := true;
     body_message := "Code already issued; re-sent to your email." |}.

Definition server_error : Response :=
  {| status := 500; ok := false;
     body_message := "Server error. Please try again later." |}.

Definition conflict : Response :=
  {| status := 409; ok := false;
     body_message := "Coupon codes are for first purchase only." |}.

Definition issued_ok : Response :=
  {| status := 200; ok := true; body_message := "Your 10% code has been emailed." |}.

(** The error [createOneTimeTenPercent] throws on a reply of the
    platform, if any. *)
Definition creation_error (reply : Fetched DiscountCreatePayload) : option Error :=
  match reply with
  | Rejected e => Some e
  | Responded r_ok errors body out =>
      match errors with
      | Some rendered => Some (mkError rendered)
      | None =>
          if negb r_ok then Some (mkError body)
          else if Nat.ltb 0 (length (discountCreate_userErrors out))
               then Some (mkError (Js.join ", " (discountCreate_userErrors out)))
               else None
      end
  end.

(** The reply is an error whose message says the code is taken. *)
Definition collision (reply : Fetched DiscountCreatePayload) : bool :=
  match creation_error reply with
  | Some e => already_taken e
  | None => false
  end.

(** The code an attempt returns on a reply that is no error. *)
Definition reply_code (reply : Fetched DiscountCreatePayload) (candidate : string) : string :=
  match reply with
  | Responded _ _ _ out => returned_code out candidate
  | Rejected _ => candidate
  end.





Section Vocabulary.

Variable W : World.

(** [new URL(`https://${req.headers.host}${req.url}`)] *)
Definition request_url (req : Request) : option URL :=
  URL_parse W ("https://" ++ template_hole (host req) ++ url req).

(** The signature parameter is, character for character, the hex-encoded
    HMAC of the base. *)
Definition signature_is_hex_hmac (req : Request) : Prop :=
  exists u secret,
    request_url req = Some u /\
    APP_PROXY_SIGNING_SECRET (env W) = Some secret /\
    searchParams_get "signature" (searchParams u)
    = Some (Hex.encode (hmac_sha256 W secret (signature_base W u))).

(** The signature parameter decodes, by [Buffer.from(_, 'hex')], to the
    bytes of the HMAC of the base. *)
Definition signature_decodes_to_hmac (req : Request) : Prop :=
  exists u signature secret,
    request_url req = Some u /\
    searchParams_get "signature" (searchParams u) = Some signature /\
    signature <> "" /\
    APP_PROXY_SIGNING_SECRET (env W) = Some secret /\
    Hex.decode signature = hmac_sha256 W secret (signature_base W u).

(** The request passed the method check, the verifier and the validation,
    and [email] is what the workflow goes on with. *)
Definition accepted (req : Request) (email : string) : Prop :=
  method req = "POST" /\
  verifyProxySignature W req = true /\
  request_email req = email /\
  email_rejected email = false.

(** The [catch] of [handler]. *)
Definition on_error (e : Error) : M W Response :=
  console_error W e ;;; json W 500 false "Server error. Please try again later.".

(** The rest of the [try] of [handler] once a customer record is at hand
    and carries no code. *)
Definition issue (email : string) (found : CustomerAndCode) : M W Response :=
  blocked <- emailHasAnyOrders W email ;;
  if blocked
  then json W 409 false "Coupon codes are for first purchase only."
  else
    minted <- mint_loop W 5 ;;
    match minted with
    | None => throw (mkError "Could not mint unique code")
    | Some code =>
        setCustomerCodeMetafield W (id found) code ;;;
        sendCodeEmail W email code ;;;
        json W 200 true "Your 10% code has been emailed."
    end.

(** The [try] of [handler] from the lookup on. *)
Definition workflow (email : string) : M W Response :=
  found <- getCustomerAndExistingCode W email ;;
  match existingCode found with
  | Some existing =>
      sendCodeEmail W email existing ;;;
      json W 200 true "Code already issued; re-sent to your email."
  | None => issue email found
  end.

Definition outcome {A} (x : Outcome A * state W * list Event) : Outcome A := fst (fst x).
Definition world_after {A} (x : Outcome A * state W * list Event) : state W := snd (fst x).
Definition calls {A} (x : Outcome A * state W * list Event) : list Event := snd x.

(** The lookup ends on a customer record that carries [code]. *)
Definition resolves_to_code (email code : string) (w : state W) : Prop :=
  exists found,
    outcome (getCustomerAndExistingCode W email w) = Return found /\
    existingCode found = Some code.

(** The lookup ends on a customer record, found or created, that carries
    no code. *)
Definition resolves_without_code (email : string) (w : state W) : Prop :=
  exists found,
    outcome (getCustomerAndExistingCode W email w) = Return found /\
    existingCode found = None.

(** The transport takes the message. *)
Definition mail_accepted (mail : Mail) (w : state W) : Prop :=
  fst (sendMail W mail w) = None.

(** The input was built by the route: the fixed configuration, a start
    date read from the clock, a code made from three random bytes. *)
Definition configured (input : DiscountCodeBasicInput) : Prop :=
  exists w r, input = discount_input (now_toISOString W w) (code_of_bytes r).

Definition creation_configured (ev : Event) : Prop :=
  match ev with
  | DiscountCodeBasicCreate input => configured input
  | _ => True
  end.

(** At most [k] creations, each of them configured by the route. *)
Definition sound (k : nat) (d : list Event) : Prop :=
  creations d <= k /\ Forall creation_configured d.

(** What the world answers to the next attempt made from [w]: three
    bytes are drawn, the creation of the candidate is requested. *)
Definition next_input (w : state W) : DiscountCodeBasicInput :=
  let (r, w1) := randomBytes3 W w in
  discount_input (now_toISOString W w1) (code_of_bytes r).

Definition next_reply (w : state W) : Fetched DiscountCreatePayload * state W :=
  fetch_discountCodeBasicCreate W (next_input w) (snd (randomBytes3 W w)).

(** The state of the world after [k] attempts in a row that all
    collided; [None] when one of them did not. *)
Fixpoint after_collisions (k : nat) (w : state W) : option (state W) :=
  match k with
  | O => Some w
  | S k' =>
      if collision (fst (next_reply w))
      then after_collisions k' (snd (next_reply w))
      else None
  end.

Definition obeys {A} (m : M W A) (k : nat) : Prop :=
  forall w, sound k (calls (m w)).

End Vocabulary.

Arguments outcome {W A} x.
Arguments world_after {W A} x.
Arguments calls {W A} x.

Ltac runs := cbn [calls outcome world_after fst snd app].

Ltac case_outcome :=
  match goal with
  | |- context [match outcome ?x with _ => _ end] => destruct (outcome x)
  end.

(** ** States of the model shop and requests to it *)

Definition shop : World := Shop.world Shop.the_env.

Definition alice : Request := Shop.signed_post (Js.Str " Alice@Example.com ").

(** Alice is a customer and holds a code. *)
Definition shop_with_code : Shop.t :=
  Shop.mk [Shop.mkCustomer "gid://shopify/Customer/1" "alice@example.com"
             (Some "WELCOME-ABC123")]
          [] ["WELCOME-ABC123"] [] true true [].

(** The same, the mail transport down. *)
Definition shop_with_code_no_mail : Shop.t :=
  Shop.mk [Shop.mkCustomer "gid://shopify/Customer/1" "alice@example.com"
             (Some "WELCOME-ABC123")]
          [] ["WELCOME-ABC123"] [] false true [].

(** Alice ordered as a guest: an order, no customer record. *)
Definition shop_with_guest_order : Shop.t :=
  Shop.mk [] [Shop.mkOrder "gid://shopify/Order/1" "alice@example.com" "unfulfilled"]
          [] [] true true [].

(** Alice is a customer whose metafield holds the empty string. *)
Definition shop_with_empty_code : Shop.t :=
  Shop.mk [Shop.mkCustomer "gid://shopify/Customer/1" "alice@example.com" (Some "")]
          [] [] [(x9f, x2a, x3c)] true true [].

(** Alice is a customer without a code; the generator is stuck on three
    zero bytes and [WELCOME-000000] is taken. *)
Definition shop_colliding : Shop.t :=
  Shop.mk [Shop.mkCustomer "gid://shopify/Customer/1" "alice@example.com" None]
          [] ["WELCOME-000000"] [] true true [].

(** The same, with one collision only before fresh bytes come. *)
Definition shop_colliding_once : Shop.t :=
  Shop.mk [Shop.mkCustomer "gid://shopify/Customer/1" "alice@example.com" None]
          [] ["WELCOME-000000"] [(x00, x00, x00); (x9f, x2a, x3c)] true true [].

(** The signature of [Shop.signed_post] in upper case, and the same
    signature followed by a character that is not a hexadecimal digit. *)
Definition upper_case_signature : Request :=
  {| method := "POST";
     host := Some "tiadem.com.au";
     url := "/apps/welcome?shop=tiadem&signature="
            ++ Js.toUpperCase (Shop.sign "/apps/welcome?shop=tiadem");
     body_email := Js.Str "alice@example.com" |}.

Definition padded_signature : Request :=
  {| method := "POST";
     host := Some "tiadem.com.au";
     url := "/apps/welcome?shop=tiadem&signature="
            ++ Shop.sign "/apps/welcome?shop=tiadem" ++ "z";
     body_email := Js.Str "alice@example.com" |}.

(** ** The vocabulary of the further properties *)

Definition method_not_allowed : Response :=
  {| status := 405; ok := false; body_message := "Method not allowed" |}.

Definition unauthorised : Response :=
  {| status := 401; ok := false; body_message := "Unauthorised" |}.

Definition invalid_email : Response :=
  {| status := 400; ok := false; body_message := "Please enter a valid email." |}.

(** The seven answers the handler has. *)
Definition answers : list Response :=
  [method_not_allowed; unauthorised; invalid_email; resent_ok; conflict; issued_ok;
   server_error].

(** The calls of a lookup: the search, then at most the creation. *)
Definition lookup_shape (email : string) (d : list Event) : Prop :=
  d = [CustomersQuery (customers_search email)] \/
  d = [CustomersQuery (customers_search email); CustomerCreate email].

(** The calls of a series of attempts, one per input. *)
Definition attempt_calls (inputs : list DiscountCodeBasicInput) : list Event :=
  flat_map (fun i => [RandomBytes 3; DiscountCodeBasicCreate i]) inputs.

(** The step of the workflow a call belongs to. *)
Definition phase (ev : Event) : nat :=
  match ev with
  | CustomersQuery _ => 0
  | CustomerCreate _ => 1
  | OrdersQuery _ => 2
  | RandomBytes _ => 3
  | DiscountCodeBasicCreate _ => 3
  | MetafieldsSet _ => 4
  | SendMail _ => 5
  | ConsoleError _ => 6
  end.

(** The calls never step back: their phases, from [lo] on, do not
    decrease. *)
Fixpoint in_order (lo : nat) (d : list Event) : bool :=
  match d with
  | [] => true
  | ev :: d' => Nat.leb lo (phase ev) && in_order (phase ev) d'
  end.

Definition is_mail (ev : Event) : bool :=
  match ev with SendMail _ => true | _ => false end.

Definition is_log (ev : Event) : bool :=
  match ev with ConsoleError _ => true | _ => false end.

Definition is_customer_create (ev : Event) : bool :=
  match ev with CustomerCreate _ => true | _ => false end.

Definition is_customers_query (ev : Event) : bool :=
  match ev with CustomersQuery _ => true | _ => false end.

Definition is_orders_query (ev : Event) : bool :=
  match ev with OrdersQuery _ => true | _ => false end.

(** How many calls of a kind were made. *)
Definition count (p : Event -> bool) (d : list Event) : nat := length (filter p d).

(** How many times a character occurs. *)
Definition occurrences (c : ascii) (l : list ascii) : nat :=
  length (filter (Ascii.eqb c) l).

Section Paths.

Variable W : World.

(** The runs of an accepted request for [email]: the answer and the calls
    made, path by path. *)
Inductive Path (email : string) : Response -> list Event -> Prop :=
| path_lookup_failed look e :
    lookup_shape email look ->
    Path email server_error (look ++ [ConsoleError e])
| path_resent code :
    code <> "" ->
    Path email resent_ok
      [CustomersQuery (customers_search email); SendMail (code_email W email code)]
| path_resend_failed code e :
    code <> "" ->
    Path email server_error
      [CustomersQuery (customers_search email); SendMail (code_email W email code);
       ConsoleError e]
| path_check_failed look e :
    lookup_shape email look ->
    Path email server_error
      (look ++ [OrdersQuery (orders_search email); ConsoleError e])
| path_conflict look :
    lookup_shape email look ->
    Path email conflict (look ++ [OrdersQuery (orders_search email)])
| path_mint_failed look inputs e :
    lookup_shape email look ->
    length inputs <= 5 ->
    Path email server_error
      (look ++ OrdersQuery (orders_search email)
            :: attempt_calls inputs ++ [ConsoleError e])
| path_write_failed look inputs i code e :
    lookup_shape email look ->
    length inputs <= 5 ->
    code <> "" ->
    Path email server_error
      (look ++ OrdersQuery (orders_search email)
            :: attempt_calls inputs
            ++ [MetafieldsSet (code_metafield i code); ConsoleError e])
| path_mail_failed look inputs i code e :
    lookup_shape email look ->
    length inputs <= 5 ->
    code <> "" ->
    Path email server_error
      (look ++ OrdersQuery (orders_search email)
            :: attempt_calls inputs
            ++ [MetafieldsSet (code_metafield i code);
                SendMail (code_email W email code); ConsoleError e])
| path_issued look inputs i code :
    lookup_shape email look ->
    length inputs <= 5 ->
    code <> "" ->
    Path email issued_ok
      (look ++ OrdersQuery (orders_search email)
            :: attempt_calls inputs
            ++ [MetafieldsSet (code_metafield i code);
                SendMail (code_email W email code)]).

End Paths.

(** ** More worlds and states to run the route in *)

(** The model shop with the order search out of service. *)
Definition shop_orders_down : World :=
  {| state := Shop.t;
     env := Shop.the_env;
     URL_parse := Shop.parse_url;
     URLSearchParams_toString := Shop.params_to_string;
     hmac_sha256 := Shop.keyed_digest;
     fetch_customers := Shop.customers_query;
     fetch_customerCreate := Shop.customer_create;
     fetch_orders := fun _ s => Shop.down s;
     fetch_discountCodeBasicCreate := Shop.discount_create;
     fetch_metafieldsSet := Shop.metafields_set;
     sendMail := Shop.send_mail;
     randomBytes3 := Shop.random_bytes3;
     now_toISOString := fun _ => "2024-07-01T00:00:00.000Z" |}.

(** The model shop refusing every metafield write with a user error. *)
Definition shop_metafields_refused : World :=
  {| state := Shop.t;
     env := Shop.the_env;
     URL_parse := Shop.parse_url;
     URLSearchParams_toString := Shop.params_to_string;
     hmac_sha256 := Shop.keyed_digest;
     fetch_customers := Shop.customers_query;
     fetch_customerCreate := Shop.customer_create;
     fetch_orders := Shop.orders_query;
     fetch_discountCodeBasicCreate := Shop.discount_create;
     fetch_metafieldsSet := fun _ s => Shop.answer ["Owner does not exist"] s;
     sendMail := Shop.send_mail;
     randomBytes3 := Shop.random_bytes3;
     now_toISOString := fun _ => "2024-07-01T00:00:00.000Z" |}.

(** Alice is a customer without code and without order; fresh bytes are
    at hand. *)
Definition shop_fresh : Shop.t :=
  Shop.mk [Shop.mkCustomer "gid://shopify/Customer/1" "alice@example.com" None]
          [] [] [(x9f, x2a, x3c)] true true [].

(** The same, the mail transport down. *)
Definition shop_fresh_no_mail : Shop.t :=
  Shop.mk [Shop.mkCustomer "gid://shopify/Customer/1" "alice@example.com" None]
          [] [] [(x9f, x2a, x3c)] false true [].

(** The platform out of service. *)
Definition shop_down : Shop.t :=
  Shop.mk [] [] [] [] true false [].

(** The code the shop holds for the customer under [email]. *)
Definition welcome_code_of (email : string) (s : Shop.t) : option string :=
  match filter (fun c => Shop.customer_email c =? email) (Shop.customers s) with
  | c :: _ => Shop.welcome_code c
  | [] => None
  end.

(** Alice's request without its signature parameter. *)
Definition alice_unsigned : Request :=
  {| method := "POST";
     host := Some "tiadem.com.au";
     url := "/apps/welcome?shop=tiadem";
     body_email := Js.Str "alice@example.com" |}.

(** ** The vocabulary of the minting loop *)

(** [c] spells the character [p] of a phrase in small letters: it is
    [p] itself, or the capital [A]..[Z] that sits 32 code points below
    [p]. *)
Definition spells (c p : ascii) : Prop :=
  c = p \/
  ((65 <= N_of_ascii c)%N /\ (N_of_ascii c <= 90)%N /\
   N_of_ascii p = (N_of_ascii c + 32)%N).

(** The message says, in whatever case of its letters, that a value
    [has already been taken]. *)
Definition says_taken (msg : string) : Prop :=
  exists pre mid post,
    Js.chars msg = (pre ++ mid ++ post)%list /\
    Forall2 spells mid (Js.chars "has already been taken").

Section Attempts.

Variable W : World.

(** The creation the next attempt makes from [w]: three bytes are drawn,
    and the discount under their code is requested. *)
Definition next_creation (w : state W) : Outcome string * state W * list Event :=
  createOneTimeTenPercent W (code_of_bytes (fst (randomBytes3 W w))) (snd (randomBytes3 W w)).

(** That creation fails, and the message of its error says the code is
    taken. *)
Definition collides (w : state W) : Prop :=
  exists e, outcome (next_creation w) = Throw e /\ says_taken (message e).

(** [k] attempts in a row from [w] collide, and leave the world in
    [wk]. *)
Fixpoint collided (k : nat) (w wk : state W) : Prop :=
  match k with
  | O => wk = w
  | S k' => collides w /\ collided k' (world_after (next_creation w)) wk
  end.

End Attempts.

(** The model shop with the creation of discounts out of service. *)
Definition shop_discounts_down : World :=
  {| state := Shop.t;
     env := Shop.the_env;
     URL_parse := Shop.parse_url;
     URLSearchParams_toString := Shop.params_to_string;
     hmac_sha256 := Shop.keyed_digest;
     fetch_customers := Shop.customers_query;
     fetch_customerCreate := Shop.customer_create;
     fetch_orders := Shop.orders_query;
     fetch_discountCodeBasicCreate := fun _ s => Shop.down s;
     fetch_metafieldsSet := Shop.metafields_set;
     sendMail := Shop.send_mail;
     randomBytes3 := Shop.random_bytes3;
     now_toISOString := fun _ => "2024-07-01T00:00:00.000Z" |}.

(** ** JavaScript strings beyond U+00FF

    [toLowerCase] is not a character-by-character map on the whole of
    Unicode: a capital sigma becomes a final sigma at the end of a word
    and a small sigma elsewhere.  [Wide] extends the alphabet of [Js] by
    the Greek letters and carries, on such strings, the way of the
    handler from the body of a verified [POST] to its first call: the
    normalisation, the validation and the search of the lookup.  On the
    strings of [Js] it is the same as the route (see
    [Wide_agrees_on_latin]). *)

Module Wide.

Inductive letter :=
| Alpha | Beta | Gamma | Delta | Epsilon | Zeta | Eta | Theta
| Iota | Kappa | Lambda | Mu | Nu | Xi | Omicron | Pi
| Rho | Sigma | Tau | Upsilon | Phi | Chi | Psi | Omega.

(** A UTF-16 code unit: U+0000..U+00FF, a Greek capital
    (U+0391..U+03A9), a Greek small letter (U+03B1..U+03C9, the sigma
    being U+03C3), or the final sigma (U+03C2). *)
Inductive char :=
| Latin (a : ascii)
| Capital (g : letter)
| Small (g : letter)
| FinalSigma.

Definition latin (s : string) : list char := map Latin (Js.chars s).

(** No Greek letter is white space. *)
Definition is_space (c : char) : bool :=
  match c with
  | Latin a => Js.is_space a
  | _ => false
  end.

Fixpoint drop_spaces (l : list char) : list char :=
  match l with
  | c :: l' => if is_space c then drop_spaces l' else l
  | [] => []
  end.

Definition trim (l : list char) : list char :=
  rev (drop_spaces (rev (drop_spaces l))).

(** The property [Cased] below U+0100: the letters of either case, the
    two ordinal indicators and the micro sign. *)
Definition latin_cased (a : ascii) : bool :=
  let n := Js.code a in
  ((65 <=? n) && (n <=? 90) || (97 <=? n) && (n <=? 122)
   || (n =? 170) || (n =? 181) || (n =? 186)
   || (192 <=? n) && (n <=? 214) || (216 <=? n) && (n <=? 246) || (248 <=? n))%N.

(** The property [Case_Ignorable] below U+0100: apostrophe, full stop,
    colon, circumflex, grave, diaeresis, soft hyphen, macron, acute,
    middle dot and cedilla. *)
Definition latin_case_ignorable (a : ascii) : bool :=
  let n := Js.code a in
  ((n =? 39) || (n =? 46) || (n =? 58) || (n =? 94) || (n =? 96)
   || (n =? 168) || (n =? 173) || (n =? 175) || (n =? 180) || (n =? 183)
   || (n =? 184))%N.

Definition cased (c : char) : bool :=
  match c with
  | Latin a => latin_cased a
  | _ => true
  end.

Definition case_ignorable (c : char) : bool :=
  match c with
  | Latin a => latin_case_ignorable a
  | _ => false
  end.

(** Going away from a character, a cased letter comes after any number
    of case-ignorable characters. *)
Fixpoint cased_letter_next (l : list char) : bool :=
  match l with
  | [] => false
  | c :: l' => if case_ignorable c then cased_letter_next l' else cased c
  end.

(** The lower-case form of [c] between [before], nearest character
    first, and [after].  A capital sigma is final when a cased letter
    precedes it and none follows. *)
Definition lower_char (before : list char) (c : char) (after : list char) : char :=
  match c with
  | Latin a => Latin (Js.lower_char a)
  | Capital Sigma =>
      if cased_letter_next before && negb (cased_letter_next after)
      then FinalSigma else Small Sigma
  | Capital g => Small g
  | Small _ | FinalSigma => c
  end.

Fixpoint lower_from (before l : list char) : list char :=
  match l with
  | [] => []
  | c :: after => lower_char before c after :: lower_from (c :: before) after
  end.

Definition toLowerCase (l : list char) : list char := lower_from [] l.

(** The matcher of [Regex], on these characters. *)
Inductive regex :=
| Empty
| Eps
| Class (p : char -> bool)
| Cat (r1 r2 : regex)
| Alt (r1 r2 : regex)
| Star (r : regex).

Definition Plus (r : regex) : regex := Cat r (Star r).

Definition is_latin (a : ascii) (c : char) : bool :=
  match c with
  | Latin b => Ascii.eqb a b
  | _ => false
  end.

Definition Chr (a : ascii) : regex := Class (is_latin a).

Fixpoint nullable (r : regex) : bool :=
  match r with
  | Empty => false
  | Eps => true
  | Class _ => false
  | Cat r1 r2 => nullable r1 && nullable r2
  | Alt r1 r2 => nullable r1 || nullable r2
  | Star _ => true
  end.

Fixpoint deriv (c : char) (r : regex) : regex :=
  match r with
  | Empty => Empty
  | Eps => Empty
  | Class p => if p c then Eps else Empty
  | Cat r1 r2 =>
      if nullable r1
      then Alt (Cat (deriv c r1) r2) (deriv c r2)
      else Cat (deriv c r1) r2
  | Alt r1 r2 => Alt (deriv c r1) (deriv c r2)
  | Star r1 => Cat (deriv c r1) (Star r1)
  end.

Fixpoint test (r : regex) (l : list char) : bool :=
  match l with
  | [] => nullable r
  | c :: l' => test (deriv c r) l'
  end.

(** [[^\s@]] *)
Definition not_space_or_at (c : char) : bool :=
  negb (is_space c || is_latin "@" c).

(** [/^[^\s@]+@[^\s@]+\.[^\s@]+$/] *)
Definition email_pattern : regex :=
  Cat (Plus (Class not_space_or_at))
    (Cat (Chr "@")
       (Cat (Plus (Class not_space_or_at))
          (Cat (Chr ".")
             (Plus (Class not_space_or_at))))).

(** [String(req.body?.email || '').trim().toLowerCase()], the email of
    the body being the string [s]. *)
Definition request_email (s : list char) : list char := toLowerCase (trim s).

(** [!email || !pattern.test(email)] *)
Definition email_rejected (email : list char) : bool :=
  match email with
  | [] => true
  | _ => negb (test email_pattern email)
  end.

(** [`email:${email}`] *)
Definition customers_search (email : list char) : list char :=
  (latin "email:" ++ email)%list.

(** The search a verified [POST] first sends to the platform, the email
    of its body being the string [s]; [None] when it is answered 400. *)
Definition first_lookup (s : list char) : option (list char) :=
  let email := request_email s in
  if email_rejected email then None else Some (customers_search email).


(** The regular expressions of [Regex] and of this module that agree on
    the characters of [Js]. *)
Inductive agree : Regex.t -> regex -> Prop :=
| agree_Empty : agree Regex.Empty Empty
| agree_Eps : agree Regex.Eps Eps
| agree_Class p q : (forall a, q (Latin a) = p a) -> agree (Regex.Class p) (Class q)
| agree_Cat r1 r2 s1 s2 : agree r1 s1 -> agree r2 s2 -> agree (Regex.Cat r1 r2) (Cat s1 s2)
| agree_Alt r1 r2 s1 s2 : agree r1 s1 -> agree r2 s2 -> agree (Regex.Alt r1 r2) (Alt s1 s2)
| agree_Star r s : agree r s -> agree (Regex.Star r) (Star s).



End Wide.

(* ================================================================== *)
(** * Part II: properties                                              *)
(* ================================================================== *)

(** ** Strings and buffers *)

Lemma chars_str (l : list ascii) : Js.chars (Js.str l) = l.
Proof. apply list_ascii_of_string_of_list_ascii. Qed.

Lemma str_chars (s : string) : Js.str (Js.chars s) = s.
Proof. apply string_of_list_ascii_of_string. Qed.

Lemma chars_app (s t : string) : Js.chars (s ++ t) = (Js.chars s ++ Js.chars t)%list.
Proof. induction s as [|c s IH]; simpl; [reflexivity | now rewrite <- IH]. Qed.


Lemma truthy_false (s : string) : Js.truthy s = false <-> s = "".
Proof.
  unfold Js.truthy. destruct (String.eqb_spec s ""); simpl; split; congruence.
Qed.

Lemma truthy_true (s : string) : Js.truthy s = true <-> s <> "".
Proof.
  unfold Js.truthy. destruct (String.eqb_spec s ""); simpl; split; congruence.
Qed.

Lemma bytes_eqb_eq (a b : list byte) : bytes_eqb a b = true <-> a = b.
Proof.
  revert b. induction a as [|x a IH]; intros [|y b]; simpl; split; try congruence.
  - intros H. apply andb_true_iff in H as [Hx Hr].
    apply Byte.byte_dec_bl in Hx. apply IH in Hr. congruence.
  - intros H. inversion H; subst. apply andb_true_iff. split.
    + now apply Byte.byte_dec_lb.
    + now apply IH.
Qed.

Lemma timingSafeEqual_true (a b : list byte) :
  timingSafeEqual a b = Some true <-> a = b.
Proof.
  unfold timingSafeEqual. split.
  - destruct (Nat.eqb (length a) (length b)); [|discriminate].
    intros H. injection H as H. now apply bytes_eqb_eq.
  - intros ->. rewrite Nat.eqb_refl. f_equal. now apply bytes_eqb_eq.
Qed.

Lemma decode_encode_byte (b : byte) (rest : list ascii) :
  Hex.decode_chars (Hex.encode_byte b ++ rest) = b :: Hex.decode_chars rest.
Proof. destruct b; reflexivity. Qed.

(** Decoding what [toString('hex')] wrote gives the buffer back. *)
Lemma decode_encode (buf : list byte) : Hex.decode (Hex.encode buf) = buf.
Proof.
  unfold Hex.decode, Hex.encode. rewrite chars_str.
  induction buf as [|b buf IH]; [reflexivity|].
  change (flat_map Hex.encode_byte (b :: buf))
    with (Hex.encode_byte b ++ flat_map Hex.encode_byte buf)%list.
  rewrite decode_encode_byte. now rewrite IH.
Qed.


(** ** The signature verifier *)

Section Verifier.

Variable W : World.

(** C4, as amended.  The verifier is a total function to [bool].  It
    answers [true] exactly when the URL parses, a non-empty [signature]
    parameter is present, the secret is set, and the bytes decoded from
    the signature are the HMAC-SHA256 of the base (path, then the other
    parameters in their order) under the secret.  A signature that is the
    hex encoding of a non-empty HMAC is accepted; a URL that does not
    parse, a missing signature, and a signature decoding to a different
    number of bytes are all answered [false]. *)
Theorem verifyProxySignature_compares_decoded_bytes :
  (forall req, verifyProxySignature W req = true <-> signature_decodes_to_hmac W req) /\
  (forall req u secret,
      request_url W req = Some u ->
      APP_PROXY_SIGNING_SECRET (env W) = Some secret ->
      hmac_sha256 W secret (signature_base W u) <> [] ->
      searchParams_get "signature" (searchParams u)
      = Some (Hex.encode (hmac_sha256 W secret (signature_base W u))) ->
      verifyProxySignature W req = true) /\
  (forall req, request_url W req = None -> verifyProxySignature W req = false) /\
  (forall req u,
      request_url W req = Some u ->
      searchParams_get "signature" (searchParams u) = None ->
      verifyProxySignature W req = false) /\
  (forall req u signature secret,
      request_url W req = Some u ->
      searchParams_get "signature" (searchParams u) = Some signature ->
      APP_PROXY_SIGNING_SECRET (env W) = Some secret ->
      length (Hex.decode signature)
      <> length (hmac_sha256 W secret (signature_base W u)) ->
      verifyProxySignature W req = false).
Proof.
  assert (Hiff : forall req,
             verifyProxySignature W req = true <-> signature_decodes_to_hmac W req).
  { intros req. unfold verifyProxySignature, signature_decodes_to_hmac, request_url.
    destruct (URL_parse W _) as [u|] eqn:Hp.
    2:{ split; [discriminate|]. intros (u' & s & k & H & _). discriminate. }
    destruct (searchParams_get "signature" (searchParams u)) as [sg|] eqn:Hg.
    2:{ split; [discriminate|]. intros (u' & s & k & Hu & H & _).
        injection Hu as <-. congruence. }
    destruct (Js.truthy sg) eqn:Ht; simpl.
    2:{ split; [discriminate|]. intros (u' & s & k & Hu & Hs & Hne & _).
        injection Hu as <-. apply truthy_false in Ht. congruence. }
    destruct (APP_PROXY_SIGNING_SECRET (env W)) as [key|] eqn:Hkey.
    2:{ split; [discriminate|]. intros (u' & s & k & _ & _ & _ & H & _). discriminate. }
    rewrite decode_encode.
    destruct (timingSafeEqual _ _) as [b|] eqn:Hc.
    - split.
      + intros ->. apply timingSafeEqual_true in Hc.
        exists u, sg, key. repeat split; auto. now apply truthy_true.
      + intros (u' & s & k & Hu & Hs & _ & Hk & Hd).
        injection Hu as <-. rewrite Hg in Hs. injection Hs as <-. injection Hk as <-.
        apply timingSafeEqual_true in Hd. congruence.
    - split; [discriminate|].
      intros (u' & s & k & Hu & Hs & _ & Hk & Hd).
      injection Hu as <-. rewrite Hg in Hs. injection Hs as <-. injection Hk as <-.
      apply timingSafeEqual_true in Hd. congruence. }
  split; [exact Hiff|]. split; [|split; [|split]].
  - intros req u secret Hu Hk Hne Hs. apply Hiff.
    exists u, (Hex.encode (hmac_sha256 W secret (signature_base W u))), secret.
    repeat split; auto.
    + intros He. apply Hne.
      rewrite <- (decode_encode (hmac_sha256 W secret (signature_base W u))).
      now rewrite He.
    + apply decode_encode.
  - intros req Hu. unfold verifyProxySignature. unfold request_url in Hu.
    now rewrite Hu.
  - intros req u Hu Hs. unfold verifyProxySignature. unfold request_url in Hu.
    now rewrite Hu, Hs.
  - intros req u sg secret Hu Hs Hk Hlen.
    destruct (verifyProxySignature W req) eqn:Hv; [|reflexivity].
    apply Hiff in Hv. destruct Hv as (u' & s & k & Hu' & Hs' & _ & Hk' & Hd).
    rewrite Hu in Hu'. injection Hu' as <-. rewrite Hs in Hs'. injection Hs' as <-.
    rewrite Hk in Hk'. injection Hk' as <-. now rewrite Hd in Hlen.
Qed.

End Verifier.

(** C4, a signed request in the model shop is accepted. *)
Lemma verifyProxySignature_witness :
  verifyProxySignature shop alice = true.
Proof.
  apply (proj1 (proj2 (verifyProxySignature_compares_decoded_bytes shop))
           alice
           (mkURL "/apps/welcome"
                  [("shop", "tiadem");
                   ("signature", Shop.sign "/apps/welcome?shop=tiadem")])
           "shhh").
  - reflexivity.
  - reflexivity.
  - vm_compute. discriminate.
  - reflexivity.
Defined.

(** C4, counterexample.  Both requests are accepted although their
    signature parameter is not the hex-encoded HMAC; the second one is
    one character too long. *)
Lemma verifyProxySignature_accepts_other_strings :
  (verifyProxySignature shop upper_case_signature = true /\
   ~ signature_is_hex_hmac shop upper_case_signature) /\
  (verifyProxySignature shop padded_signature = true /\
   String.length (Shop.sign "/apps/welcome?shop=tiadem" ++ "z") = 65 /\
   ~ signature_is_hex_hmac shop padded_signature).
Proof.
  split; [split; [vm_compute; reflexivity|]
         |split; [vm_compute; reflexivity | split; [reflexivity|]]].
  - intros (u & secret & Hu & Hk & Hs).
    vm_compute in Hu. injection Hu as <-.
    vm_compute in Hk. injection Hk as <-.
    vm_compute in Hs. discriminate.
  - intros (u & secret & Hu & Hk & Hs).
    vm_compute in Hu. injection Hu as <-.
    vm_compute in Hk. injection Hk as <-.
    vm_compute in Hs. discriminate.
Qed.

(** ** The matcher is correct *)

Module RegexFacts.
Import Regex.

Lemma cat_inv r1 r2 l :
  Matches (Cat r1 r2) l ->
  exists l1 l2, l = (l1 ++ l2)%list /\ Matches r1 l1 /\ Matches r2 l2.
Proof. inversion 1; subst; eauto. Qed.

Lemma alt_inv r1 r2 l : Matches (Alt r1 r2) l -> Matches r1 l \/ Matches r2 l.
Proof. inversion 1; subst; auto. Qed.

Lemma class_inv p l : Matches (Class p) l -> exists c, l = [c] /\ p c = true.
Proof. inversion 1; subst; eauto. Qed.

Lemma star_cons_inv r c l :
  Matches (Star r) (c :: l) ->
  exists l1 l2, l = (l1 ++ l2)%list /\ Matches r (c :: l1) /\ Matches (Star r) l2.
Proof.
  intros H. remember (Star r) as sr eqn:Hsr. remember (c :: l) as cl eqn:Hcl.
  revert c l Hcl.
  induction H as [| | | | | |r' l1 l2 H1 _ H2 IH2]; intros c0 l0 Hcl; try discriminate.
  injection Hsr as ->.
  destruct l1 as [|c1 l1]; simpl in Hcl.
  - now apply IH2.
  - injection Hcl as -> <-. eauto.
Qed.

Lemma nullable_spec r : nullable r = true <-> Matches r [].
Proof.
  induction r as [| |p|r1 IH1 r2 IH2|r1 IH1 r2 IH2|r IH]; simpl.
  - split; [discriminate | inversion 1].
  - split; [constructor | reflexivity].
  - split; [discriminate | inversion 1].
  - rewrite andb_true_iff, IH1, IH2. split.
    + intros [H1 H2]. now apply (MCat _ _ [] []).
    + intros H. apply cat_inv in H as (l1 & l2 & Hl & H1 & H2).
      symmetry in Hl. apply app_eq_nil in Hl as [-> ->]. auto.
  - rewrite orb_true_iff, IH1, IH2. split.
    + intros [H|H]; [now apply MAltL | now apply MAltR].
    + apply alt_inv.
  - split; [constructor | reflexivity].
Qed.

Lemma deriv_spec c r l : Matches (deriv c r) l <-> Matches r (c :: l).
Proof.
  revert l.
  induction r as [| |p|r1 IH1 r2 IH2|r1 IH1 r2 IH2|r IH]; intros l; simpl.
  - split; inversion 1.
  - split; inversion 1.
  - destruct (p c) eqn:Hp; split.
    + inversion 1; subst. now constructor.
    + intros H. apply class_inv in H as (c' & Hc & _). injection Hc as <- ->. constructor.
    + inversion 1.
    + intros H. apply class_inv in H as (c' & Hc & Hp'). injection Hc as <- ->. congruence.
  - assert (Hcat : Matches (Cat (deriv c r1) r2) l <->
                   exists l1 l2, l = (l1 ++ l2)%list /\ Matches r1 (c :: l1) /\ Matches r2 l2).
    { split.
      - intros H. apply cat_inv in H as (l1 & l2 & -> & H1 & H2).
        exists l1, l2. repeat split; auto. now apply IH1.
      - intros (l1 & l2 & -> & H1 & H2). constructor; auto. now apply IH1. }
    destruct (nullable r1) eqn:Hn.
    + split.
      * intros H. apply alt_inv in H as [H|H].
        -- apply Hcat in H as (l1 & l2 & -> & H1 & H2).
           now apply (MCat _ _ (c :: l1) l2).
        -- apply (MCat _ _ [] (c :: l)); [now apply nullable_spec | now apply IH2].
      * intros H. apply cat_inv in H as (l1 & l2 & Hl & H1 & H2).
        destruct l1 as [|c1 l1]; simpl in Hl.
        -- subst l2. apply MAltR. now apply IH2.
        -- injection Hl as <- ->. apply MAltL. apply Hcat. eauto.
    + rewrite Hcat. split.
      * intros (l1 & l2 & -> & H1 & H2). now apply (MCat _ _ (c :: l1) l2).
      * intros H. apply cat_inv in H as (l1 & l2 & Hl & H1 & H2).
        destruct l1 as [|c1 l1]; simpl in Hl.
        -- apply nullable_spec in H1. congruence.
        -- injection Hl as <- ->. eauto.
  - split.
    + intros H. apply alt_inv in H as [H|H];
        [apply MAltL; now apply IH1 | apply MAltR; now apply IH2].
    + intros H. apply alt_inv in H as [H|H];
        [apply MAltL; now apply IH1 | apply MAltR; now apply IH2].
  - split.
    + intros H. apply cat_inv in H as (l1 & l2 & -> & H1 & H2).
      apply (MStarCons _ (c :: l1) l2); [now apply IH | assumption].
    + intros H. apply star_cons_inv in H as (l1 & l2 & -> & H1 & H2).
      constructor; [now apply IH | assumption].
Qed.

Lemma test_chars_spec r l : test_chars r l = true <-> Matches r l.
Proof.
  revert r. induction l as [|c l IH]; intros r; simpl.
  - apply nullable_spec.
  - rewrite IH. apply deriv_spec.
Qed.

(** [Class p +] matches the non-empty strings of characters of [p]. *)
Lemma star_class p l : Matches (Star (Class p)) l <-> forallb p l = true.
Proof.
  split.
  - induction l as [|c l IH]; intros H; [reflexivity|].
    apply star_cons_inv in H as (l1 & l2 & -> & H1 & H2).
    apply class_inv in H1 as (c' & Hc & Hp). injection Hc as <- ->.
    simpl. rewrite Hp. now apply IH.
  - induction l as [|c l IH]; intros H; [constructor|].
    simpl in H. apply andb_true_iff in H as [Hp Hl].
    apply (MStarCons _ [c] l); [now constructor | now apply IH].
Qed.

Lemma plus_class p l :
  Matches (Plus (Class p)) l <-> l <> [] /\ forallb p l = true.
Proof.
  unfold Plus. split.
  - intros H. apply cat_inv in H as (l1 & l2 & -> & H1 & H2).
    apply class_inv in H1 as (c & -> & Hp). apply star_class in H2.
    split; [discriminate|]. simpl. now rewrite Hp.
  - intros [Hne H]. destruct l as [|c l]; [contradiction|].
    simpl in H. apply andb_true_iff in H as [Hp Hl].
    apply (MCat _ _ [c] l); [now constructor | now apply star_class].
Qed.

Lemma chr_inv c l : Matches (Chr c) l <-> l = [c].
Proof.
  unfold Chr. split.
  - intros H. apply class_inv in H as (c' & -> & Hc). apply Ascii.eqb_eq in Hc. now subst.
  - intros ->. constructor. apply Ascii.eqb_refl.
Qed.

End RegexFacts.

(** ** Validation of the email *)

Lemma email_pattern_spec (s : string) :
  Regex.test email_pattern s = true <-> well_formed (Js.chars s).
Proof.
  unfold Regex.test. rewrite RegexFacts.test_chars_spec. unfold email_pattern, well_formed.
  split.
  - intros H.
    apply RegexFacts.cat_inv in H as (a & r1 & -> & Ha & H).
    apply RegexFacts.cat_inv in H as (at_ & r2 & -> & Hat & H).
    apply RegexFacts.cat_inv in H as (b & r3 & -> & Hb & H).
    apply RegexFacts.cat_inv in H as (dot & c & -> & Hdot & Hc).
    apply RegexFacts.chr_inv in Hat. apply RegexFacts.chr_inv in Hdot. subst.
    apply RegexFacts.plus_class in Ha, Hb, Hc.
    exists a, b, c. simpl. intuition.
  - intros (a & b & c & -> & Ha & Hb & Hc & Fa & Fb & Fc).
    apply Regex.MCat; [now apply RegexFacts.plus_class|].
    apply (Regex.MCat _ _ ["@"%char]); [now apply RegexFacts.chr_inv|].
    apply Regex.MCat; [now apply RegexFacts.plus_class|].
    apply (Regex.MCat _ _ ["."%char]); [now apply RegexFacts.chr_inv|].
    now apply RegexFacts.plus_class.
Qed.

Lemma domain_after_local (a r : list ascii) :
  forallb not_space_or_at a = true -> domain (a ++ "@"%char :: r) = r.
Proof.
  induction a as [|c a IH]; simpl; [reflexivity|].
  intros H. apply andb_true_iff in H as [Hc Ha].
  unfold not_space_or_at in Hc. apply negb_true_iff, orb_false_iff in Hc as [_ Hc].
  rewrite Hc. now apply IH.
Qed.

Lemma malformed_rejected (email : string) :
  malformed email -> email_rejected email = true.
Proof.
  intros H. unfold email_rejected.
  destruct (Regex.test email_pattern email) eqn:Ht; [|apply orb_true_r].
  apply email_pattern_spec in Ht as (a & b & c & Hl & Ha & Hb & Hc & Fa & Fb & Fc).
  destruct H as [-> | [H | H]].
  - reflexivity.
  - exfalso. apply H. rewrite Hl. apply in_or_app. right. now left.
  - exfalso. apply H. rewrite Hl, (domain_after_local a _ Fa).
    apply in_or_app. right. now left.
Qed.

(** ** The handler, step by step *)

Section Workflow.

Variable W : World.

Lemma handler_accepted (req : Request) (email : string) :
  accepted W req email ->
  handler W req = try_catch (workflow W email) (on_error W).
Proof.
  intros (Hm & Hv & He & Hr). unfold handler.
  rewrite Hm, Hv, He, Hr. reflexivity.
Qed.

(** C5, as amended.  A request whose method is not [POST] is answered
    405 with [{ok:false}], whatever its signature; the world is left as
    it was and no call is made. *)
Theorem other_methods_answered_405 (req : Request) (w : state W) :
  method req <> "POST" ->
  handler W req w
  = (Return {| status := 405; ok := false; body_message := "Method not allowed" |}, w, []).
Proof.
  intros H. unfold handler, try_catch.
  destruct (String.eqb_spec (method req) "POST"); [contradiction | reflexivity].
Qed.

(** C6.  A verified [POST] whose email, as extracted from the body, is
    empty, has no [@], or has no dot in its domain, is answered 400 with
    [{ok:false}]; the world is left as it was and no call is made. *)
Theorem malformed_email_answered_400 (req : Request) (w : state W) :
  method req = "POST" ->
  verifyProxySignature W req = true ->
  malformed (request_email req) ->
  handler W req w
  = (Return {| status := 400; ok := false;
               body_message := "Please enter a valid email." |}, w, []).
Proof.
  intros Hm Hv He. apply malformed_rejected in He.
  unfold handler, try_catch. rewrite Hm, Hv, He. reflexivity.
Qed.

End Workflow.

(** C5: a [GET] in the model shop. *)
Lemma other_methods_witness :
  handler shop
    (mkRequest "GET" (Some "tiadem.com.au") "/apps/welcome" Js.Undefined) Shop.empty
  = (Return {| status := 405; ok := false; body_message := "Method not allowed" |},
     Shop.empty, []).
Proof.
  apply (other_methods_answered_405 shop
           (mkRequest "GET" (Some "tiadem.com.au") "/apps/welcome" Js.Undefined)).
  simpl. discriminate.
Defined.

(** C5, counterexample: the status of the answer to a [GET] is not 400. *)
Lemma get_is_not_answered_400 :
  exists r w d,
    handler shop
      (mkRequest "GET" (Some "tiadem.com.au") "/apps/welcome" Js.Undefined) Shop.empty
    = (Return r, w, d) /\
    status r = 405 /\ status r <> 400.
Proof.
  do 3 eexists. split; [vm_compute; reflexivity|]. split; [reflexivity | discriminate].
Qed.

(** C6: a signed [POST] whose email has no [@]. *)
Lemma malformed_email_witness :
  handler shop (Shop.signed_post (Js.Str " Nobody ")) Shop.empty
  = (Return {| status := 400; ok := false;
               body_message := "Please enter a valid email." |}, Shop.empty, []).
Proof.
  apply (malformed_email_answered_400 shop
           (Shop.signed_post (Js.Str " Nobody "))).
  - reflexivity.
  - vm_compute. reflexivity.
  - right. left. vm_compute. intuition discriminate.
Defined.

(** ** Reading a run *)

Section Runs.

Variable W : World.

Lemma run_eta {A} (x : Outcome A * state W * list Event) :
  x = (outcome x, world_after x, calls x).
Proof. now destruct x as [[r w] d]. Qed.

Lemma bind_run {A B} (m : M W A) (k : A -> M W B) (w : state W) :
  bind m k w =
  match outcome (m w) with
  | Return a =>
      (outcome (k a (world_after (m w))), world_after (k a (world_after (m w))),
       (calls (m w) ++ calls (k a (world_after (m w))))%list)
  | Throw e => (Throw e, world_after (m w), calls (m w))
  end.
Proof.
  unfold bind, outcome, world_after, calls.
  destruct (m w) as [[[a|e] w1] d1]; simpl; [|reflexivity].
  now destruct (k a w1) as [[r w2] d2].
Qed.

Lemma try_catch_run {A} (m : M W A) (h : Error -> M W A) (w : state W) :
  try_catch m h w =
  match outcome (m w) with
  | Return a => (Return a, world_after (m w), calls (m w))
  | Throw e =>
      (outcome (h e (world_after (m w))), world_after (h e (world_after (m w))),
       (calls (m w) ++ calls (h e (world_after (m w))))%list)
  end.
Proof.
  unfold try_catch, outcome, world_after, calls.
  destruct (m w) as [[[a|e] w1] d1]; simpl; [reflexivity|].
  now destruct (h e w1) as [[r w2] d2].
Qed.

(** What the lookup calls: the customer search, then at most the
    creation of the customer; a record that carries a code was found, not
    created. *)
Lemma lookup_calls (email : string) (w : state W) :
  let run := getCustomerAndExistingCode W email w in
  (calls run = [CustomersQuery (customers_search email)] \/
   calls run = [CustomersQuery (customers_search email); CustomerCreate email]) /\
  (forall found code,
      outcome run = Return found -> existingCode found = Some code ->
      calls run = [CustomersQuery (customers_search email)] /\ code <> "").
Proof.
  cbv zeta. unfold getCustomerAndExistingCode, shopifyGQL, bind, perform, outcome, calls.
  destruct (fetch_customers W (customers_search email) w) as [[e|r_ok errs body data] w1];
    simpl.
  { split; [now left | discriminate]. }
  destruct errs as [rendered|]; simpl; [split; [now left | discriminate]|].
  destruct r_ok; simpl; [|split; [now left | discriminate]].
  destruct data as [|edge rest]; simpl.
  - destruct (fetch_customerCreate W email w1) as [[e|ok2 errs2 body2 out] w2]; simpl.
    { split; [now right | discriminate]. }
    destruct errs2 as [rendered|]; simpl; [split; [now right | discriminate]|].
    destruct ok2; simpl; [|split; [now right | discriminate]].
    destruct (Nat.ltb 0 (length (customerCreate_userErrors out))); simpl;
      [split; [now right | discriminate]|].
    destruct (customer out); simpl; (split; [now right|]); [|discriminate].
    intros found code Hf Hc. injection Hf as <-. discriminate.
  - split; [now left|]. intros found code Hf Hc. injection Hf as <-. simpl in Hc.
    split; [reflexivity|]. unfold value_or_null in Hc.
    destruct (metafield edge) as [v|]; [|discriminate].
    destruct (Js.truthy v) eqn:Hv; [|discriminate].
    injection Hc as <-. now apply truthy_true.
Qed.

Lemma orders_calls (email : string) (w : state W) :
  calls (emailHasAnyOrders W email w) = [OrdersQuery (orders_search email)].
Proof.
  unfold emailHasAnyOrders, shopifyGQL, bind, perform, calls.
  destruct (fetch_orders W (orders_search email) w) as [[e|r_ok errs body data] w1];
    simpl; [reflexivity|].
  destruct errs; simpl; [reflexivity|]. now destruct r_ok.
Qed.

Lemma sendCodeEmail_run (to code : string) (w : state W) :
  sendCodeEmail W to code w
  = (match fst (sendMail W (code_email W to code) w) with
     | Some e => Throw e
     | None => Return tt
     end,
     snd (sendMail W (code_email W to code) w),
     [SendMail (code_email W to code)]).
Proof.
  unfold sendCodeEmail, bind, perform.
  destruct (sendMail W (code_email W to code) w) as [[e|] w1]; reflexivity.
Qed.

End Runs.

(** ** Resend, conflict, and the empty stored code *)

Section Issuance.

Variable W : World.

(** The whole run of a request that finds a stored code. *)
Lemma resend_run (req : Request) (email code : string) (w : state W) :
  accepted W req email ->
  resolves_to_code W email code w ->
  let w1 := world_after (getCustomerAndExistingCode W email w) in
  let mail := code_email W email code in
  handler W req w
  = match fst (sendMail W mail w1) with
    | None =>
        (Return resent_ok, snd (sendMail W mail w1),
         [CustomersQuery (customers_search email); SendMail mail])
    | Some e =>
        (Return server_error, snd (sendMail W mail w1),
         [CustomersQuery (customers_search email); SendMail mail; ConsoleError e])
    end.
Proof.
  intros Hacc (found & Hf & Hc). cbv zeta.
  destruct (lookup_calls W email w) as [_ Hcalls].
  destruct (Hcalls found code Hf Hc) as [Hd _].
  rewrite (handler_accepted W req email Hacc), try_catch_run.
  unfold workflow. rewrite bind_run, Hf. cbv iota beta. rewrite Hc, Hd. cbv iota.
  rewrite bind_run, sendCodeEmail_run.
  unfold outcome, world_after, calls. simpl.
  destruct (fst (sendMail W (code_email W email code) _)); reflexivity.
Qed.

(** The run of a request whose lookup gives a record without a code: the
    lookup, then [issue], its error caught and logged. *)
Lemma handler_without_code (req : Request) (email : string) (w : state W)
  (found : CustomerAndCode) :
  accepted W req email ->
  outcome (getCustomerAndExistingCode W email w) = Return found ->
  existingCode found = None ->
  let look := getCustomerAndExistingCode W email w in
  let rest := issue W email found (world_after look) in
  handler W req w
  = match outcome rest with
    | Return r => (Return r, world_after rest, (calls look ++ calls rest)%list)
    | Throw e =>
        (Return server_error, world_after rest,
         (calls look ++ calls rest ++ [ConsoleError e])%list)
    end.
Proof.
  intros Hacc Hf Hc. cbv zeta.
  rewrite (handler_accepted W req email Hacc), try_catch_run.
  unfold workflow. rewrite bind_run, Hf. cbv iota beta. rewrite Hc. cbv iota.
  destruct (issue W email found _) as [[[r|e] w2] d2];
    unfold outcome, world_after, calls; simpl; [reflexivity|].
  now rewrite app_assoc.
Qed.

Lemma issue_run (email : string) (found : CustomerAndCode) (w1 : state W) :
  let check := emailHasAnyOrders W email w1 in
  let oq := OrdersQuery (orders_search email) in
  issue W email found w1
  = match outcome check with
    | Return true => (Return conflict, world_after check, [oq])
    | Return false =>
        let mint := mint_loop W 5 (world_after check) in
        match outcome mint with
        | Return (Some code) =>
            let rest :=
              (setCustomerCodeMetafield W (id found) code ;;;
               sendCodeEmail W email code ;;;
               json W 200 true "Your 10% code has been emailed.")
                (world_after mint) in
            (outcome rest, world_after rest, (oq :: calls mint ++ calls rest)%list)
        | Return None =>
            (Throw (mkError "Could not mint unique code"), world_after mint,
             (oq :: calls mint)%list)
        | Throw e => (Throw e, world_after mint, (oq :: calls mint)%list)
        end
    | Throw e => (Throw e, world_after check, [oq])
    end.
Proof.
  cbv zeta. unfold issue. rewrite bind_run, orders_calls.
  destruct (outcome (emailHasAnyOrders W email w1)) as [[|]|e]; try reflexivity.
  rewrite bind_run.
  destruct (outcome (mint_loop W 5 _)) as [[code|]|e]; try reflexivity.
  unfold throw, outcome at 1, world_after at 1, calls at 2. simpl.
  now rewrite app_nil_r.
Qed.

Lemma mint_attempt_starts (w : state W) :
  exists later, calls (mint_attempt W w) = RandomBytes 3 :: later.
Proof.
  unfold mint_attempt, try_catch, makeCode, bind, perform, ret, calls.
  destruct (randomBytes3 W w) as [r w1]. simpl.
  destruct (createOneTimeTenPercent W (code_of_bytes r) w1) as [[[c|e] w2] d]; simpl.
  - eexists; reflexivity.
  - destruct (already_taken e); simpl; eexists; reflexivity.
Qed.

Lemma mint_loop_starts (n : nat) (w : state W) :
  exists later, calls (mint_loop W (S n) w) = RandomBytes 3 :: later.
Proof.
  simpl. rewrite bind_run. destruct (mint_attempt_starts w) as (later & H).
  destruct (outcome (mint_attempt W w)) as [[c|]|e];
    unfold calls in *; simpl; rewrite H; simpl; eexists; reflexivity.
Qed.

(** The whole run of a request that finds no stored code and a prior
    order. *)
Lemma conflict_run (req : Request) (email : string) (w : state W) :
  accepted W req email ->
  resolves_without_code W email w ->
  let look := getCustomerAndExistingCode W email w in
  let check := emailHasAnyOrders W email (world_after look) in
  outcome check = Return true ->
  handler W req w
  = (Return conflict, world_after check,
     (calls look ++ [OrdersQuery (orders_search email)])%list).
Proof.
  intros Hacc (found & Hf & Hc). cbv zeta. intros Hb.
  rewrite (handler_without_code req email w found Hacc Hf Hc). cbv zeta.
  rewrite issue_run. cbv zeta. rewrite Hb. reflexivity.
Qed.

(** C2, as amended.  A verified, validated request whose email has no
    stored code and at least one order found by the check is answered 409
    with [{ok:false}].  The calls made are the customer search, possibly
    the creation of the customer record when the search found none, and
    the order search: no candidate is drawn, no discount is created, no
    metafield is written, no mail is sent. *)
Theorem prior_order_answered_409 (req : Request) (email : string) (w : state W) :
  accepted W req email ->
  resolves_without_code W email w ->
  outcome (emailHasAnyOrders W email
             (world_after (getCustomerAndExistingCode W email w))) = Return true ->
  let run := handler W req w in
  outcome run = Return conflict /\
  (calls run = [CustomersQuery (customers_search email);
                OrdersQuery (orders_search email)] \/
   calls run = [CustomersQuery (customers_search email);
                CustomerCreate email;
                OrdersQuery (orders_search email)]) /\
  minter_calls (calls run) = [] /\
  sent_mails (calls run) = [] /\
  filter is_metafield_write (calls run) = [].
Proof.
  intros Hacc Hres Hb. cbv zeta.
  rewrite (conflict_run req email w Hacc Hres Hb).
  destruct (lookup_calls W email w) as [[Hd|Hd] _]; cbv zeta in Hd;
    unfold calls in *; simpl; rewrite Hd; simpl; repeat split; auto.
Qed.

End Issuance.

(** ** Runs in the model shop *)

Lemma alice_accepted : accepted shop alice "alice@example.com".
Proof. repeat split; vm_compute; reflexivity. Qed.

(** C2: Alice has a customer record without a code, and an order. *)
Lemma prior_order_witness :
  outcome (handler shop alice
             (Shop.mk [Shop.mkCustomer "gid://shopify/Customer/1" "alice@example.com" None]
                      [Shop.mkOrder "gid://shopify/Order/1" "alice@example.com" "fulfilled"]
                      [] [] true true []))
  = Return conflict.
Proof.
  apply (prior_order_answered_409 shop alice "alice@example.com").
  - exact alice_accepted.
  - eexists. split; reflexivity.
  - reflexivity.
Defined.

(** C2, counterexample.  Alice ordered as a guest.  The request is
    answered 409, and on the way a customer record was created for her:
    the shop is not left as it was. *)
Lemma conflict_after_customer_creation :
  accepted shop alice "alice@example.com" /\
  resolves_without_code shop "alice@example.com" shop_with_guest_order /\
  outcome (emailHasAnyOrders shop "alice@example.com"
             (world_after (getCustomerAndExistingCode shop "alice@example.com"
                             shop_with_guest_order))) = Return true /\
  outcome (handler shop alice shop_with_guest_order) = Return conflict /\
  In (CustomerCreate "alice@example.com") (calls (handler shop alice shop_with_guest_order)) /\
  Shop.customers (world_after (handler shop alice shop_with_guest_order))
  = [Shop.mkCustomer "gid://shopify/Customer/1" "alice@example.com" None] /\
  Shop.customers shop_with_guest_order = [].
Proof.
  split; [exact alice_accepted|].
  split; [eexists; split; reflexivity|].
  split; [reflexivity|]. split; [reflexivity|].
  split; [vm_compute; tauto|]. split; reflexivity.
Qed.

(** ** The minting loop *)

Section Minting.

Variable W : World.

Lemma creations_app (d1 d2 : list Event) :
  creations (d1 ++ d2) = creations d1 + creations d2.
Proof. unfold creations. now rewrite filter_app, length_app. Qed.

Lemma sound_nil : sound W 0 [].
Proof. split; [reflexivity | constructor]. Qed.

Lemma sound_app k1 k2 d1 d2 : sound W k1 d1 -> sound W k2 d2 -> sound W (k1 + k2) (d1 ++ d2).
Proof.
  intros [H1 F1] [H2 F2]. split.
  - rewrite creations_app. lia.
  - apply Forall_app. now split.
Qed.

Lemma sound_le k k' d : k <= k' -> sound W k d -> sound W k' d.
Proof. intros Hle [H F]. split; [lia | exact F]. Qed.

Lemma obeys_ret {A} (a : A) : obeys W (ret a) 0.
Proof. intros w. apply sound_nil. Qed.

Lemma obeys_throw {A} (e : Error) : obeys W (@throw W A e) 0.
Proof. intros w. apply sound_nil. Qed.

Lemma obeys_le {A} (m : M W A) k k' : k <= k' -> obeys W m k -> obeys W m k'.
Proof. intros Hle H w. eapply sound_le; eauto. Qed.

Lemma obeys_bind {A B} (m : M W A) (f : A -> M W B) k1 k2 :
  obeys W m k1 -> (forall a, obeys W (f a) k2) -> obeys W (bind m f) (k1 + k2).
Proof.
  intros Hm Hf w. rewrite bind_run. specialize (Hm w).
  destruct (outcome (m w)) as [a|e]; runs.
  - apply sound_app; [exact Hm | apply Hf].
  - eapply sound_le; [|exact Hm]. lia.
Qed.

Lemma obeys_try_catch {A} (m : M W A) (h : Error -> M W A) k1 k2 :
  obeys W m k1 -> (forall e, obeys W (h e) k2) -> obeys W (try_catch m h) (k1 + k2).
Proof.
  intros Hm Hh w. rewrite try_catch_run. specialize (Hm w).
  destruct (outcome (m w)) as [a|e]; runs.
  - eapply sound_le; [|exact Hm]. lia.
  - apply sound_app; [exact Hm | apply Hh].
Qed.

Lemma obeys_perform {A} (ev : Event) (call : state W -> A * state W) :
  is_creation ev = false -> obeys W (perform ev call) 0.
Proof.
  intros H w. unfold perform, calls. destruct (call w) as [a w1]. simpl.
  split.
  - unfold creations. simpl. now rewrite H.
  - constructor; [|constructor]. destruct ev; try exact I. discriminate.
Qed.

Lemma obeys_create {A} (input : DiscountCodeBasicInput)
  (call : state W -> A * state W) :
  configured W input -> obeys W (perform (DiscountCodeBasicCreate input) call) 1.
Proof.
  intros H w. unfold perform, calls. destruct (call w) as [a w1]. simpl.
  split; [reflexivity|]. constructor; [exact H | constructor].
Qed.

Lemma obeys_then {A B} (m : M W A) (f : A -> M W B) k :
  obeys W m 0 -> (forall a, obeys W (f a) k) -> obeys W (bind m f) k.
Proof. intros Hm Hf. now apply (obeys_bind m f 0 k). Qed.

Lemma obeys_first {A B} (m : M W A) (f : A -> M W B) k :
  obeys W m k -> (forall a, obeys W (f a) 0) -> obeys W (bind m f) k.
Proof.
  intros Hm Hf. apply obeys_le with (k + 0); [lia|]. now apply obeys_bind.
Qed.

Lemma obeys_shopifyGQL {D} (ev : Event) (call : state W -> Fetched D * state W) k :
  obeys W (perform ev call) k -> obeys W (shopifyGQL W ev call) k.
Proof.
  intros H. unfold shopifyGQL. apply obeys_first; [exact H|].
  intros [e|r_ok [rendered|] body data]; try apply obeys_throw.
  destruct r_ok; [apply obeys_ret | apply obeys_throw].
Qed.

Lemma obeys_lookup (email : string) : obeys W (getCustomerAndExistingCode W email) 0.
Proof.
  unfold getCustomerAndExistingCode. cbv zeta.
  apply obeys_then; [apply obeys_shopifyGQL; now apply obeys_perform|].
  intros [|edge rest]; [|apply obeys_ret].
  apply obeys_then; [apply obeys_shopifyGQL; now apply obeys_perform|].
  intros out. cbv zeta. destruct (Nat.ltb 0 _); [apply obeys_throw|].
  destruct (customer out); [apply obeys_ret | apply obeys_throw].
Qed.

Lemma obeys_orders (email : string) : obeys W (emailHasAnyOrders W email) 0.
Proof.
  unfold emailHasAnyOrders. cbv zeta.
  apply obeys_then; [apply obeys_shopifyGQL; now apply obeys_perform|].
  intros edges. apply obeys_ret.
Qed.

Lemma obeys_set (i code : string) : obeys W (setCustomerCodeMetafield W i code) 0.
Proof.
  unfold setCustomerCodeMetafield. cbv zeta.
  apply obeys_then; [apply obeys_shopifyGQL; now apply obeys_perform|].
  intros errs. destruct (Nat.ltb 0 _); [apply obeys_throw | apply obeys_ret].
Qed.

Lemma obeys_send (to code : string) : obeys W (sendCodeEmail W to code) 0.
Proof.
  unfold sendCodeEmail. cbv zeta.
  apply obeys_then; [now apply obeys_perform|].
  intros [e|]; [apply obeys_throw | apply obeys_ret].
Qed.

Lemma makeCode_run (w : state W) :
  makeCode W w
  = (Return (code_of_bytes (fst (randomBytes3 W w))), snd (randomBytes3 W w),
     [RandomBytes 3]).
Proof.
  unfold makeCode, bind, perform, ret. now destruct (randomBytes3 W w).
Qed.

Lemma obeys_createOneTimeTenPercent (r : byte * byte * byte) :
  obeys W (createOneTimeTenPercent W (code_of_bytes r)) 1.
Proof.
  intros w. unfold createOneTimeTenPercent. rewrite bind_run.
  unfold observe at 1 2 3. runs. cbv zeta.
  apply obeys_first.
  - apply obeys_shopifyGQL, obeys_create. now exists w, r.
  - intros out. cbv zeta. destruct (Nat.ltb 0 _); [apply obeys_throw | apply obeys_ret].
Qed.

Lemma obeys_attempt : obeys W (mint_attempt W) 1.
Proof.
  unfold mint_attempt.
  apply obeys_le with (1 + 0); [lia|]. apply obeys_try_catch.
  - intros w. rewrite bind_run, makeCode_run. runs.
    apply (sound_app 0 1 [RandomBytes 3]);
      [split; [apply Nat.le_refl | repeat constructor]|].
    apply obeys_first; [apply obeys_createOneTimeTenPercent|].
    intros c. apply obeys_ret.
  - intros e. destruct (negb (already_taken e)); [apply obeys_throw | apply obeys_ret].
Qed.

Lemma obeys_mint_loop (n : nat) : obeys W (mint_loop W n) n.
Proof.
  induction n as [|n IH]; simpl; [apply obeys_ret|].
  apply (obeys_bind _ _ 1 n); [apply obeys_attempt|].
  intros [c|]; [|exact IH]. apply obeys_le with 0; [lia | apply obeys_ret].
Qed.

Lemma obeys_handler (req : Request) : obeys W (handler W req) 5.
Proof.
  unfold handler. apply obeys_le with (5 + 0); [lia|].
  apply obeys_try_catch.
  2:{ intros e. apply obeys_then; [now apply obeys_perform | intros; apply obeys_ret]. }
  destruct (negb (method req =? "POST"));
    [apply obeys_le with 0; [lia | apply obeys_ret]|].
  destruct (negb (verifyProxySignature W req));
    [apply obeys_le with 0; [lia | apply obeys_ret]|].
  cbv zeta.
  destruct (email_rejected _); [apply obeys_le with 0; [lia | apply obeys_ret]|].
  apply obeys_then; [apply obeys_lookup|]. intros found.
  destruct (existingCode found) as [existing|].
  { apply obeys_le with 0; [lia|].
    apply obeys_then; [apply obeys_send | intros; apply obeys_ret]. }
  apply obeys_then; [apply obeys_orders|]. intros [|].
  { apply obeys_le with 0; [lia | apply obeys_ret]. }
  apply obeys_first; [apply obeys_mint_loop|].
  intros [code|]; [|apply obeys_throw].
  apply obeys_then; [apply obeys_set|]. intros _.
  apply obeys_then; [apply obeys_send | intros; apply obeys_ret].
Qed.

(** One attempt, in terms of what the world answers. *)
Lemma mint_attempt_run (w : state W) :
  mint_attempt W w
  = (match creation_error (fst (next_reply W w)) with
     | None => Return (Some (reply_code (fst (next_reply W w)) (code (next_input W w))))
     | Some e => if already_taken e then Return None else Throw e
     end,
     snd (next_reply W w),
     [RandomBytes 3; DiscountCodeBasicCreate (next_input W w)]).
Proof.
  unfold mint_attempt, try_catch, makeCode, createOneTimeTenPercent, shopifyGQL,
    bind, perform, observe, ret, throw, next_reply, next_input.
  destruct (randomBytes3 W w) as [r w1]. simpl.
  destruct (fetch_discountCodeBasicCreate W _ w1) as [[e|r_ok errs body out] w2]; simpl.
  - now destruct (already_taken e).
  - destruct errs as [rendered|]; simpl.
    + now destruct (already_taken (mkError rendered)).
    + destruct r_ok; simpl.
      * destruct (Nat.ltb 0 (length (discountCreate_userErrors out))); simpl;
          [|reflexivity].
        now destruct (already_taken (mkError (Js.join ", " (discountCreate_userErrors out)))).
      * now destruct (already_taken (mkError body)).
Qed.

(** After [k] collisions in a row the loop has made [k] creations and
    goes on with what is left of its budget. *)
Lemma mint_loop_after_collisions (k n : nat) (w wk : state W) :
  after_collisions W k w = Some wk ->
  exists d,
    creations d = k /\
    mint_loop W (k + n) w
    = (outcome (mint_loop W n wk), world_after (mint_loop W n wk),
       (d ++ calls (mint_loop W n wk))%list).
Proof.
  revert w. induction k as [|k IH]; intros w H; simpl in H.
  - injection H as <-. exists []. split; [reflexivity|]. simpl. apply run_eta.
  - destruct (collision (fst (next_reply W w))) eqn:Hc; [|discriminate].
    destruct (IH _ H) as (d & Hd & Hrun).
    exists ([RandomBytes 3; DiscountCodeBasicCreate (next_input W w)] ++ d)%list.
    split; [rewrite creations_app, Hd; reflexivity|].
    change (S k + n) with (S (k + n)). simpl mint_loop.
    rewrite bind_run, mint_attempt_run. runs.
    unfold collision in Hc.
    destruct (creation_error (fst (next_reply W w))) as [e|]; [|discriminate].
    rewrite Hc, Hrun. reflexivity.
Qed.

(** The attempt that follows [k] collisions decides the loop when there
    is budget left for it. *)
Lemma mint_loop_decided (k : nat) (w wk : state W) :
  k < 5 ->
  after_collisions W k w = Some wk ->
  collision (fst (next_reply W wk)) = false ->
  outcome (mint_loop W 5 w)
  = match creation_error (fst (next_reply W wk)) with
    | None => Return (Some (reply_code (fst (next_reply W wk)) (code (next_input W wk))))
    | Some e => Throw e
    end /\
  creations (calls (mint_loop W 5 w)) = k + 1.
Proof.
  intros Hk Hafter Hc.
  destruct (mint_loop_after_collisions k (5 - k) w wk Hafter) as (d & Hd & Hrun).
  replace (k + (5 - k)) with 5 in Hrun by lia. rewrite Hrun. runs.
  destruct (5 - k) as [|m] eqn:Hm; [lia|].
  simpl mint_loop. rewrite bind_run, mint_attempt_run. runs.
  unfold collision in Hc.
  destruct (creation_error (fst (next_reply W wk))) as [e|]; [rewrite Hc|]; runs;
    (split; [reflexivity|]); rewrite creations_app, Hd; reflexivity.
Qed.

Lemma mint_loop_exhausted (w w5 : state W) :
  after_collisions W 5 w = Some w5 ->
  outcome (mint_loop W 5 w) = Return None /\
  world_after (mint_loop W 5 w) = w5 /\
  creations (calls (mint_loop W 5 w)) = 5.
Proof.
  intros Hafter.
  destruct (mint_loop_after_collisions 5 0 w w5 Hafter) as (d & Hd & Hrun).
  change (5 + 0) with 5 in Hrun. rewrite Hrun. runs.
  repeat split. rewrite creations_app, Hd. reflexivity.
Qed.



End Minting.

(** ** Normalisation of the email *)

Lemma lower_char_space (c : ascii) : Js.is_space (Js.lower_char c) = Js.is_space c.
Proof. destruct c as [[] [] [] [] [] [] [] []]; reflexivity. Qed.




Lemma drop_spaces_lower (l : list ascii) :
  Js.drop_spaces (map Js.lower_char l) = map Js.lower_char (Js.drop_spaces l).
Proof.
  induction l as [|c l IH]; simpl; [reflexivity|].
  rewrite lower_char_space. now destruct (Js.is_space c).
Qed.

Lemma trim_chars_lower (l : list ascii) :
  Js.trim_chars (map Js.lower_char l) = map Js.lower_char (Js.trim_chars l).
Proof.
  unfold Js.trim_chars.
  now rewrite drop_spaces_lower, <- map_rev, drop_spaces_lower, <- map_rev.
Qed.




Lemma forallb_rev (p : ascii -> bool) (l : list ascii) :
  forallb p (rev l) = forallb p l.
Proof.
  induction l as [|c l IH]; simpl; [reflexivity|].
  rewrite forallb_app, IH. simpl. rewrite andb_true_r. apply andb_comm.
Qed.



Section Normalisation.

Variable W : World.


End Normalisation.

(** ** More runs in the model shop *)



(** ** Beyond U+00FF *)

Lemma Wide_drop_spaces_latin (l : list ascii) :
  Wide.drop_spaces (map Wide.Latin l) = map Wide.Latin (Js.drop_spaces l).
Proof.
  induction l as [|c l IH]; simpl; [reflexivity|]. now destruct (Js.is_space c).
Qed.

Lemma Wide_trim_latin (l : list ascii) :
  Wide.trim (map Wide.Latin l) = map Wide.Latin (Js.trim_chars l).
Proof.
  unfold Wide.trim, Js.trim_chars.
  now rewrite Wide_drop_spaces_latin, <- map_rev, Wide_drop_spaces_latin, <- map_rev.
Qed.

Lemma Wide_lower_from_latin (before : list Wide.char) (l : list ascii) :
  Wide.lower_from before (map Wide.Latin l) = map Wide.Latin (map Js.lower_char l).
Proof.
  revert before. induction l as [|c l IH]; intros before; simpl; [reflexivity|].
  now rewrite IH.
Qed.

Lemma agree_nullable (r : Regex.t) (s : Wide.regex) :
  Wide.agree r s -> Wide.nullable s = Regex.nullable r.
Proof. induction 1; simpl; congruence. Qed.

Lemma agree_deriv (r : Regex.t) (s : Wide.regex) (a : ascii) :
  Wide.agree r s -> Wide.agree (Regex.deriv a r) (Wide.deriv (Wide.Latin a) s).
Proof.
  induction 1 as [| |p q Hpq|r1 r2 s1 s2 H1 IH1 H2 IH2|r1 r2 s1 s2 H1 IH1 H2 IH2|r s H IH];
    simpl.
  - constructor.
  - constructor.
  - rewrite Hpq. destruct (p a); constructor.
  - rewrite (agree_nullable _ _ H1).
    destruct (Regex.nullable r1); repeat constructor; assumption.
  - now constructor.
  - repeat constructor; assumption.
Qed.

Lemma agree_test (r : Regex.t) (s : Wide.regex) (l : list ascii) :
  Wide.agree r s -> Wide.test s (map Wide.Latin l) = Regex.test_chars r l.
Proof.
  revert r s. induction l as [|a l IH]; intros r s H; simpl.
  - now apply agree_nullable.
  - apply IH. now apply agree_deriv.
Qed.

Lemma agree_email_pattern : Wide.agree email_pattern Wide.email_pattern.
Proof.
  assert (Hc : Wide.agree (Regex.Class not_space_or_at) (Wide.Class Wide.not_space_or_at)).
  { constructor. intros a. unfold Wide.not_space_or_at, not_space_or_at. simpl.
    now rewrite Ascii.eqb_sym. }
  assert (Hchr : forall a, Wide.agree (Regex.Chr a) (Wide.Chr a)).
  { intros a. constructor. reflexivity. }
  unfold email_pattern, Wide.email_pattern, Regex.Plus, Wide.Plus.
  repeat first [ exact Hc | apply Hchr | constructor ].
Qed.

(** On the strings of [Js] the way to the first call is the one of the
    route: same normalisation, same validation, same search. *)
Lemma Wide_agrees_on_latin (s : string) :
  let email := Js.toLowerCase (Js.trim s) in
  Wide.request_email (Wide.latin s) = Wide.latin email /\
  Wide.email_rejected (Wide.latin email) = email_rejected email /\
  Wide.first_lookup (Wide.latin s)
  = if email_rejected email then None else Some (Wide.latin (customers_search email)).
Proof.
  cbv zeta.
  assert (Hn : Wide.request_email (Wide.latin s) = Wide.latin (Js.toLowerCase (Js.trim s))).
  { unfold Wide.request_email, Wide.latin, Wide.toLowerCase, Js.toLowerCase, Js.trim.
    now rewrite Wide_trim_latin, Wide_lower_from_latin, !chars_str. }
  assert (Hr : forall e, Wide.email_rejected (Wide.latin e) = email_rejected e).
  { intros e. unfold Wide.email_rejected, email_rejected, Regex.test, Wide.latin.
    rewrite (agree_test _ _ (Js.chars e) agree_email_pattern).
    destruct e; reflexivity. }
  split; [exact Hn|]. split; [apply Hr|].
  unfold Wide.first_lookup. cbv zeta. rewrite Hn, Hr.
  destruct (email_rejected (Js.toLowerCase (Js.trim s))); [reflexivity|].
  unfold Wide.customers_search, customers_search, Wide.latin.
  now rewrite chars_app, map_app.
Qed.


(* ================================================================== *)
(** * Part III: further properties                                     *)
(* ================================================================== *)

(** ** Every run of the handler *)

Section Catalogue.

Variable W : World.

(** The three checks the handler makes before it calls out. *)
Lemma handler_checks (req : Request) (w : state W) :
  handler W req w
  = if negb (method req =? "POST") then (Return method_not_allowed, w, [])
    else if negb (verifyProxySignature W req) then (Return unauthorised, w, [])
    else if email_rejected (request_email req) then (Return invalid_email, w, [])
    else try_catch (workflow W (request_email req)) (on_error W) w.
Proof.
  unfold handler.
  destruct (negb (method req =? "POST")); [reflexivity|].
  destruct (negb (verifyProxySignature W req)); [reflexivity|].
  cbv zeta. destruct (email_rejected (request_email req)); reflexivity.
Qed.

Lemma not_rejected_accepted (req : Request) :
  negb (method req =? "POST") = false ->
  negb (verifyProxySignature W req) = false ->
  email_rejected (request_email req) = false ->
  accepted W req (request_email req).
Proof.
  intros Hm Hv He. repeat split; auto.
  - apply negb_false_iff in Hm. now apply String.eqb_eq.
  - now apply negb_false_iff in Hv.
Qed.

Lemma lookup_shaped (email : string) (w : state W) :
  lookup_shape email (calls (getCustomerAndExistingCode W email w)).
Proof. now destruct (lookup_calls W email w) as [H _]. Qed.

(** A lookup that fails is the end of the request. *)
Lemma lookup_failed_run (req : Request) (email : string) (w : state W) (e : Error) :
  accepted W req email ->
  outcome (getCustomerAndExistingCode W email w) = Throw e ->
  handler W req w
  = (Return server_error, world_after (getCustomerAndExistingCode W email w),
     (calls (getCustomerAndExistingCode W email w) ++ [ConsoleError e])%list).
Proof.
  intros Hacc He.
  rewrite (handler_accepted W req email Hacc), try_catch_run.
  unfold workflow. rewrite bind_run, He. reflexivity.
Qed.

Lemma setCustomerCodeMetafield_calls (i code : string) (w : state W) :
  calls (setCustomerCodeMetafield W i code w) = [MetafieldsSet (code_metafield i code)].
Proof.
  unfold setCustomerCodeMetafield, shopifyGQL, bind, perform, calls.
  destruct (fetch_metafieldsSet W _ _) as [[e|r_ok errs b data] w3]; simpl;
    [reflexivity|].
  destruct errs; simpl; [reflexivity|].
  destruct r_ok; simpl; [|reflexivity].
  destruct (Nat.ltb 0 (length data)); reflexivity.
Qed.

(** The end of an issuance: the code is written, then mailed. *)
Lemma persist_notify_run (i email code : string) (w : state W) :
  let set := setCustomerCodeMetafield W i code w in
  let mail := code_email W email code in
  let sent := sendMail W mail (world_after set) in
  (setCustomerCodeMetafield W i code ;;;
   sendCodeEmail W email code ;;;
   json W 200 true "Your 10% code has been emailed.") w
  = match outcome set with
    | Throw e => (Throw e, world_after set, [MetafieldsSet (code_metafield i code)])
    | Return _ =>
        match fst sent with
        | Some e =>
            (Throw e, snd sent, [MetafieldsSet (code_metafield i code); SendMail mail])
        | None =>
            (Return issued_ok, snd sent,
             [MetafieldsSet (code_metafield i code); SendMail mail])
        end
    end.
Proof.
  cbv zeta. rewrite bind_run, setCustomerCodeMetafield_calls.
  destruct (outcome (setCustomerCodeMetafield W i code w)) as [[]|e]; [|reflexivity].
  rewrite bind_run, sendCodeEmail_run. runs.
  destruct (fst (sendMail W (code_email W email code) _)); reflexivity.
Qed.

Lemma code_of_bytes_not_empty (r : byte * byte * byte) : code_of_bytes r <> "".
Proof. destruct r as [[b1 b2] b3]. discriminate. Qed.

Lemma returned_code_not_empty (out : DiscountCreatePayload) (candidate : string) :
  candidate <> "" -> returned_code out candidate <> "".
Proof.
  intros H. unfold returned_code.
  destruct (codes out) as [[|c rest]|]; auto.
  destruct (Js.truthy c) eqn:Hc; auto. now apply truthy_true.
Qed.

Lemma next_input_code (w : state W) :
  code (next_input W w) = code_of_bytes (fst (randomBytes3 W w)).
Proof. unfold next_input. now destruct (randomBytes3 W w). Qed.

(** The calls of the loop are those of its attempts, at most as many as
    its budget, and a code it returns is not empty. *)
Lemma mint_loop_shape (n : nat) (w : state W) :
  exists inputs,
    length inputs <= n /\
    calls (mint_loop W n w) = attempt_calls inputs /\
    (forall code, outcome (mint_loop W n w) = Return (Some code) -> code <> "").
Proof.
  revert w. induction n as [|n IH]; intros w.
  - exists []. repeat split; auto. discriminate.
  - simpl mint_loop. rewrite bind_run, mint_attempt_run. runs.
    destruct (creation_error (fst (next_reply W w))) as [e|] eqn:He.
    + destruct (already_taken e).
      * destruct (IH (snd (next_reply W w))) as (inputs & Hlen & Hcalls & Hcode).
        exists (next_input W w :: inputs). runs. rewrite Hcalls.
        repeat split; simpl; auto. lia.
      * exists [next_input W w]. repeat split; simpl; auto; [lia | discriminate].
    + exists [next_input W w]. repeat split; simpl; auto; [lia|].
      unfold ret, outcome. simpl. intros c Hc. injection Hc as <-.
      unfold reply_code. destruct (fst (next_reply W w)); [discriminate|].
      apply returned_code_not_empty. rewrite next_input_code.
      apply code_of_bytes_not_empty.
Qed.

(** The catalogue: a request is turned away before any call, or it is
    accepted and its run is one of the paths. *)
Lemma handler_paths (req : Request) (w : state W) :
  (handler W req w = (Return method_not_allowed, w, []) \/
   handler W req w = (Return unauthorised, w, []) \/
   handler W req w = (Return invalid_email, w, [])) \/
  (accepted W req (request_email req) /\
   exists r,
     outcome (handler W req w) = Return r /\
     Path W (request_email req) r (calls (handler W req w))).
Proof.
  rewrite handler_checks.
  destruct (negb (method req =? "POST")) eqn:Hm; [now left; left|].
  destruct (negb (verifyProxySignature W req)) eqn:Hv; [now left; right; left|].
  destruct (email_rejected (request_email req)) eqn:He; [now left; right; right|].
  right. pose proof (not_rejected_accepted req Hm Hv He) as Hacc.
  split; [exact Hacc|].
  rewrite <- (handler_accepted W req _ Hacc).
  set (email := request_email req) in *.
  pose proof (lookup_shaped email w) as Hlook.
  destruct (outcome (getCustomerAndExistingCode W email w)) as [found|e] eqn:Hf.
  2:{ rewrite (lookup_failed_run req email w e Hacc Hf). eexists. split; [reflexivity|].
      now apply path_lookup_failed. }
  destruct (existingCode found) as [code|] eqn:Hc.
  { assert (Hres : resolves_to_code W email code w) by (exists found; auto).
    destruct (lookup_calls W email w) as [_ Hne].
    destruct (Hne found code Hf Hc) as [_ Hcode].
    rewrite (resend_run W req email code w Hacc Hres). cbv zeta.
    destruct (fst (sendMail W (code_email W email code) _)) as [e|];
      eexists; (split; [reflexivity|]); runs;
      [now apply path_resend_failed | now apply path_resent]. }
  rewrite (handler_without_code W req email w found Hacc Hf Hc). cbv zeta.
  rewrite issue_run. cbv zeta.
  set (w1 := world_after (getCustomerAndExistingCode W email w)).
  set (look := calls (getCustomerAndExistingCode W email w)) in *.
  destruct (outcome (emailHasAnyOrders W email w1)) as [[|]|e]; runs.
  - eexists. split; [reflexivity|]. now apply path_conflict.
  - set (w2 := world_after (emailHasAnyOrders W email w1)).
    destruct (mint_loop_shape 5 w2) as (inputs & Hlen & Hcalls & Hcode).
    destruct (outcome (mint_loop W 5 w2)) as [[code|]|e] eqn:Hm5; runs.
    + specialize (Hcode code eq_refl).
      rewrite persist_notify_run. cbv zeta.
      destruct (outcome (setCustomerCodeMetafield W (id found) code _)) as [[]|e]; runs.
      * destruct (fst (sendMail W (code_email W email code) _)) as [e|]; runs;
          rewrite Hcalls; eexists; (split; [reflexivity|]).
        -- rewrite <- app_assoc. simpl. now apply path_mail_failed.
        -- now apply path_issued.
      * rewrite Hcalls. eexists. split; [reflexivity|].
        rewrite <- app_assoc. simpl. now apply path_write_failed.
    + rewrite Hcalls. eexists. split; [reflexivity|]. now apply path_mint_failed.
    + rewrite Hcalls. eexists. split; [reflexivity|]. now apply path_mint_failed.
  - eexists. split; [reflexivity|]. now apply path_check_failed.
Qed.

End Catalogue.

(** ** What holds on every path *)

Arguments attempt_calls : simpl never.

Lemma in_attempt_calls (ev : Event) (inputs : list DiscountCodeBasicInput) :
  In ev (attempt_calls inputs) -> is_minter_call ev = true.
Proof.
  unfold attempt_calls. rewrite in_flat_map. intros (i & _ & [<- | [<- | []]]); reflexivity.
Qed.

Lemma filter_attempt_calls (p : Event -> bool) (inputs : list DiscountCodeBasicInput) :
  p (RandomBytes 3) = false ->
  (forall i, p (DiscountCodeBasicCreate i) = false) ->
  filter p (attempt_calls inputs) = [].
Proof.
  intros Hr Hc. unfold attempt_calls.
  induction inputs as [|i inputs IH]; simpl; [reflexivity|].
  now rewrite Hr, Hc.
Qed.

Lemma creations_attempt_calls (inputs : list DiscountCodeBasicInput) :
  length (filter is_creation (attempt_calls inputs)) = length inputs.
Proof.
  unfold attempt_calls.
  induction inputs as [|i inputs IH]; simpl; [reflexivity | now rewrite IH].
Qed.

Lemma in_order_le (lo lo' : nat) (d : list Event) :
  lo' <= lo -> in_order lo d = true -> in_order lo' d = true.
Proof.
  destruct d as [|ev d]; simpl; [reflexivity|].
  intros Hle H. apply andb_true_iff in H as [H1 H2]. apply Nat.leb_le in H1.
  apply andb_true_iff. split; [apply Nat.leb_le; lia | exact H2].
Qed.

Lemma in_order_attempts (lo : nat) (inputs : list DiscountCodeBasicInput)
  (rest : list Event) :
  lo <= 3 -> in_order 3 rest = true ->
  in_order lo (attempt_calls inputs ++ rest) = true.
Proof.
  intros Hlo Hrest. revert lo Hlo.
  unfold attempt_calls. induction inputs as [|i inputs IH]; intros lo Hlo; simpl.
  - now apply in_order_le with 3.
  - rewrite IH by lia. apply Nat.leb_le in Hlo. now rewrite Hlo.
Qed.

Lemma last_app_cons {A} (l1 l2 : list A) (a d : A) :
  last (l1 ++ a :: l2) d = last (a :: l2) d.
Proof.
  induction l1 as [|x l1 IH]; [reflexivity|].
  change ((x :: l1) ++ a :: l2)%list with (x :: (l1 ++ a :: l2))%list.
  destruct (l1 ++ a :: l2)%list eqn:E; [now destruct l1 | exact IH].
Qed.

Section OnPaths.

Variable W : World.

Lemma path_answer email r d : Path W email r d -> In r answers.
Proof. destruct 1; unfold answers; simpl; auto 10. Qed.

Ltac lookups :=
  repeat match goal with
         | H : lookup_shape _ _ |- _ => destruct H as [-> | ->]
         end.

Lemma path_counts email r d :
  Path W email r d ->
  count is_customers_query d = 1 /\
  count is_customer_create d <= 1 /\
  count is_orders_query d <= 1 /\
  count is_metafield_write d <= 1 /\
  count is_mail d <= 1 /\
  count is_log d <= 1 /\
  count is_creation d <= 5.
Proof.
  assert (Hc : forall inputs, length inputs <= 5 ->
                 length (filter is_creation (attempt_calls inputs)) <= 5).
  { intros inputs Hlen. now rewrite creations_attempt_calls. }
  destruct 1; lookups; unfold count; simpl;
    rewrite ?filter_app; simpl;
    rewrite ?(filter_attempt_calls is_customers_query),
            ?(filter_attempt_calls is_customer_create),
            ?(filter_attempt_calls is_orders_query),
            ?(filter_attempt_calls is_metafield_write),
            ?(filter_attempt_calls is_mail),
            ?(filter_attempt_calls is_log) by reflexivity;
    rewrite ?length_app; simpl;
    repeat split; try lia;
    match goal with
    | H : length ?inputs <= 5 |- _ => specialize (Hc inputs H); lia
    end.
Qed.

Lemma path_in_order email r d : Path W email r d -> in_order 0 d = true.
Proof.
  destruct 1; lookups; simpl; try reflexivity;
    (apply in_order_attempts; [lia | reflexivity]).
Qed.

Lemma path_logged email r d :
  Path W email r d ->
  (status r = 500 <-> exists d' e, d = (d' ++ [ConsoleError e])%list).
Proof.
  assert (Hlast : forall (l d' : list Event) (e : Error) (x : Event),
             (l ++ [x])%list = (d' ++ [ConsoleError e])%list -> is_log x = true).
  { intros l d' e x H. apply app_inj_tail in H as [_ ->]. reflexivity. }
  intros H.
  destruct H as [look e Hl | c Hc | c e Hc | look e Hl | look Hl | look inputs e Hl Hn
                | look inputs i c e Hl Hn Hc | look inputs i c e Hl Hn Hc
                | look inputs i c Hl Hn Hc]; simpl.
  - split; [eauto | reflexivity].
  - split; [discriminate|]. intros (d' & e & Hd).
    apply (Hlast [CustomersQuery (customers_search email)]) in Hd. discriminate.
  - split; [|reflexivity]. intros _.
    now exists [CustomersQuery (customers_search email); SendMail (code_email W email c)], e.
  - split; [|reflexivity]. intros _.
    exists (look ++ [OrdersQuery (orders_search email)])%list, e.
    now rewrite <- app_assoc.
  - split; [discriminate|]. intros (d' & e & Hd). apply Hlast in Hd. discriminate.
  - split; [|reflexivity]. intros _.
    exists (look ++ OrdersQuery (orders_search email) :: attempt_calls inputs)%list, e.
    now rewrite <- app_assoc.
  - split; [|reflexivity]. intros _.
    exists (look ++ OrdersQuery (orders_search email) :: attempt_calls inputs
            ++ [MetafieldsSet (code_metafield i c)])%list, e.
    rewrite <- !app_assoc. simpl. now rewrite <- app_assoc.
  - split; [|reflexivity]. intros _.
    exists (look ++ OrdersQuery (orders_search email) :: attempt_calls inputs
            ++ [MetafieldsSet (code_metafield i c);
                SendMail (code_email W email c)])%list, e.
    rewrite <- !app_assoc. simpl. now rewrite <- app_assoc.
  - split; [discriminate|]. intros (d' & e & Hd).
    assert (Hd' : ((look ++ OrdersQuery (orders_search email) :: attempt_calls inputs
                    ++ [MetafieldsSet (code_metafield i c)])
                   ++ [SendMail (code_email W email c)])%list
                  = (d' ++ [ConsoleError e])%list).
    { rewrite <- Hd. rewrite <- !app_assoc. simpl. now rewrite <- app_assoc. }
    apply Hlast in Hd'. discriminate.
Qed.

Ltac members H :=
  repeat first
    [ apply in_app_or in H; destruct H as [H|H]
    | apply in_attempt_calls in H; discriminate H
    | destruct H as [H|H]; [try discriminate H|]
    | contradiction H ].

Lemma path_mail email r d mail :
  Path W email r d ->
  In (SendMail mail) d ->
  exists code, code <> "" /\ mail = code_email W email code.
Proof.
  destruct 1; lookups; intros Hin; simpl in Hin; members Hin;
    try (injection Hin as <-; eauto).
Qed.

Lemma path_written_is_mailed email r d m mail :
  Path W email r d ->
  In (MetafieldsSet m) d ->
  In (SendMail mail) d ->
  m = code_metafield (ownerId m) (value m) /\
  value m <> "" /\
  mail = code_email W email (value m).
Proof.
  destruct 1; lookups; intros Hm Hs; simpl in Hm, Hs; members Hm; members Hs;
    try (injection Hm as <-; injection Hs as <-; simpl; auto).
Qed.

End OnPaths.

(** ** What holds on every run *)

Section EveryRun.

Variable W : World.

(** X1.  The handler never lets an error escape: every request, in every
    world, is answered, and the answer is one of seven fixed ones.  Its
    [ok] is [true] exactly when its status is 200, and its message is
    never the text of an error. *)
Theorem handler_always_answers (req : Request) (w : state W) :
  exists r,
    outcome (handler W req w) = Return r /\
    In r answers /\
    (ok r = true <-> status r = 200).
Proof.
  assert (Hok : forall r, In r answers -> (ok r = true <-> status r = 200)).
  { intros r [<- | [<- | [<- | [<- | [<- | [<- | [<- | []]]]]]]]; simpl;
      split; (reflexivity || discriminate). }
  destruct (handler_paths W req w) as [[H | [H | H]] | (_ & r & Hr & Hp)].
  - rewrite H. eexists. split; [reflexivity|]. split; [|apply Hok]; simpl; auto 10.
  - rewrite H. eexists. split; [reflexivity|]. split; [|apply Hok]; simpl; auto 10.
  - rewrite H. eexists. split; [reflexivity|]. split; [|apply Hok]; simpl; auto 10.
  - exists r. split; [exact Hr|]. pose proof (path_answer W _ _ _ Hp) as Hin. auto.
Qed.

(** X2.  One request makes at most one customer search, one customer
    creation, one order search, one metafield write, one mail and one
    log line. *)
Theorem handler_calls_at_most_once (req : Request) (w : state W) :
  let d := calls (handler W req w) in
  count is_customers_query d <= 1 /\
  count is_customer_create d <= 1 /\
  count is_orders_query d <= 1 /\
  count is_metafield_write d <= 1 /\
  count is_mail d <= 1 /\
  count is_log d <= 1.
Proof.
  cbv zeta.
  destruct (handler_paths W req w) as [[H | [H | H]] | (_ & r & Hr & Hp)];
    try (rewrite H; unfold count; simpl; repeat split; lia).
  destruct (path_counts W _ _ _ Hp) as (H1 & H2 & H3 & H4 & H5 & H6 & _).
  repeat split; auto. lia.
Qed.

(** X3.  The calls of a run follow the workflow and never step back:
    customer search, customer creation, order search, minting, metafield
    write, mail, log line. *)
Theorem handler_calls_in_order (req : Request) (w : state W) :
  in_order 0 (calls (handler W req w)) = true.
Proof.
  destruct (handler_paths W req w) as [[H | [H | H]] | (_ & r & Hr & Hp)];
    try (rewrite H; reflexivity).
  exact (path_in_order W _ _ _ Hp).
Qed.

(** X4.  The answer is the 500 exactly when the run ends on a log line:
    every failure is logged, and nothing else is. *)
Theorem server_error_iff_logged (req : Request) (w : state W) :
  exists r,
    outcome (handler W req w) = Return r /\
    (status r = 500 <->
     exists d e, calls (handler W req w) = (d ++ [ConsoleError e])%list).
Proof.
  assert (Hnil : forall d e, [] <> (d ++ [ConsoleError e])%list)
    by (intros [|x d] e; discriminate).
  destruct (handler_paths W req w) as [[H | [H | H]] | (_ & r & Hr & Hp)].
  - rewrite H. eexists. split; [reflexivity|]. runs. simpl.
    split; [discriminate|]. intros (d & e & Hd). now apply Hnil in Hd.
  - rewrite H. eexists. split; [reflexivity|]. runs. simpl.
    split; [discriminate|]. intros (d & e & Hd). now apply Hnil in Hd.
  - rewrite H. eexists. split; [reflexivity|]. runs. simpl.
    split; [discriminate|]. intros (d & e & Hd). now apply Hnil in Hd.
  - exists r. split; [exact Hr|]. exact (path_logged W _ _ _ Hp).
Qed.

(** X5.  A mail the handler sends goes to the trimmed, lower-cased
    address of the request, from the configured sender, under the fixed
    subject, and carries a code that is not empty. *)
Theorem mail_goes_to_the_request_address (req : Request) (w : state W) (mail : Mail) :
  In (SendMail mail) (calls (handler W req w)) ->
  exists code,
    code <> "" /\
    mail = code_email W (request_email req) code /\
    to mail = Js.toLowerCase (Js.trim (Js.or_empty_String (body_email req))) /\
    subject mail = "Your 10% welcome code" /\
    from mail = EMAIL_FROM (env W).
Proof.
  intros Hin.
  destruct (handler_paths W req w) as [[H | [H | H]] | (_ & r & Hr & Hp)];
    try (rewrite H in Hin; contradiction Hin).
  destruct (path_mail W _ _ _ _ Hp Hin) as (c & Hc & ->).
  exists c. repeat split; auto.
Qed.

(** X6.  When a run writes a metafield and sends a mail, the mail carries
    the very code that was written, and the write is the
    [welcome]/[code] single-line text field. *)
Theorem written_code_is_the_mailed_code
  (req : Request) (w : state W) (m : MetafieldsSetInput) (mail : Mail) :
  In (MetafieldsSet m) (calls (handler W req w)) ->
  In (SendMail mail) (calls (handler W req w)) ->
  mail = code_email W (request_email req) (value m) /\
  value m <> "" /\
  namespace m = "welcome" /\ key m = "code" /\ type m = "single_line_text_field".
Proof.
  intros Hm Hs.
  destruct (handler_paths W req w) as [[H | [H | H]] | (_ & r & Hr & Hp)];
    try (rewrite H in Hm; contradiction Hm).
  destruct (path_written_is_mailed W _ _ _ _ _ Hp Hm Hs) as (Heq & Hne & Hmail).
  split; [exact Hmail|]. split; [exact Hne|].
  rewrite Heq. repeat split.
Qed.

(** X7.  A [POST] that fails the signature check is answered 401 with
    [{ok:false}]; the world is left as it was and no call is made,
    whatever the body. *)
Theorem unverified_post_answered_401 (req : Request) (w : state W) :
  method req = "POST" ->
  verifyProxySignature W req = false ->
  handler W req w = (Return unauthorised, w, []).
Proof.
  intros Hm Hv. rewrite handler_checks, Hm, Hv. reflexivity.
Qed.

(** X8.  When the lookup fails the request ends there: the error is
    logged, the answer is the 500, and neither the order search, nor the
    minter, nor a metafield write, nor a mail follows. *)
Theorem lookup_failure_answered_500
  (req : Request) (email : string) (w : state W) (e : Error) :
  accepted W req email ->
  outcome (getCustomerAndExistingCode W email w) = Throw e ->
  let look := getCustomerAndExistingCode W email w in
  handler W req w
  = (Return server_error, world_after look, (calls look ++ [ConsoleError e])%list) /\
  lookup_shape email (calls look).
Proof.
  intros Hacc He. cbv zeta. split.
  - now apply lookup_failed_run.
  - apply lookup_shaped.
Qed.

(** X9.  When the order search fails the request ends there: the error is
    logged, the answer is the 500, and no code is minted, written or
    mailed. *)
Theorem order_check_failure_answered_500
  (req : Request) (email : string) (w : state W) (e : Error) :
  accepted W req email ->
  resolves_without_code W email w ->
  let look := getCustomerAndExistingCode W email w in
  let check := emailHasAnyOrders W email (world_after look) in
  outcome check = Throw e ->
  handler W req w
  = (Return server_error, world_after check,
     (calls look ++ [OrdersQuery (orders_search email); ConsoleError e])%list).
Proof.
  intros Hacc (found & Hf & Hc). cbv zeta. intros He.
  rewrite (handler_without_code W req email w found Hacc Hf Hc). cbv zeta.
  rewrite issue_run. cbv zeta. rewrite He. reflexivity.
Qed.

(** The three ends of an issuance, once a code is minted. *)
Lemma minted_run (req : Request) (email code : string) (w : state W)
  (found : CustomerAndCode) :
  accepted W req email ->
  outcome (getCustomerAndExistingCode W email w) = Return found ->
  existingCode found = None ->
  let look := getCustomerAndExistingCode W email w in
  let check := emailHasAnyOrders W email (world_after look) in
  let mint := mint_loop W 5 (world_after check) in
  let set := setCustomerCodeMetafield W (id found) code (world_after mint) in
  let mail := code_email W email code in
  let sent := sendMail W mail (world_after set) in
  let before :=
    (calls look ++ OrdersQuery (orders_search email) :: calls mint)%list in
  outcome check = Return false ->
  outcome mint = Return (Some code) ->
  handler W req w
  = match outcome set with
    | Throw e =>
        (Return server_error, world_after set,
         (before ++ [MetafieldsSet (code_metafield (id found) code); ConsoleError e])%list)
    | Return _ =>
        match fst sent with
        | Some e =>
            (Return server_error, snd sent,
             (before ++ [MetafieldsSet (code_metafield (id found) code);
                         SendMail mail; ConsoleError e])%list)
        | None =>
            (Return issued_ok, snd sent,
             (before ++ [MetafieldsSet (code_metafield (id found) code);
                         SendMail mail])%list)
        end
    end.
Proof.
  intros Hacc Hf Hc. cbv zeta. intros Hcheck Hmint.
  rewrite (handler_without_code W req email w found Hacc Hf Hc). cbv zeta.
  rewrite issue_run. cbv zeta. rewrite Hcheck. cbv iota. rewrite Hmint. cbv iota.
  rewrite persist_notify_run. cbv zeta.
  destruct (outcome (setCustomerCodeMetafield W (id found) code _)) as [[]|e]; runs.
  - destruct (fst (sendMail W (code_email W email code) _)) as [e|]; runs;
      rewrite <- ?app_assoc; simpl; rewrite <- ?app_assoc; reflexivity.
  - rewrite <- ?app_assoc. simpl. rewrite <- ?app_assoc. reflexivity.
Qed.

End EveryRun.

(** ** The end of an issuance *)

Section Issued.

Variable W : World.

Lemma sent_mails_app (d1 d2 : list Event) :
  sent_mails (d1 ++ d2) = (sent_mails d1 ++ sent_mails d2)%list.
Proof. apply flat_map_app. Qed.

Lemma no_mail_in_attempts (inputs : list DiscountCodeBasicInput) :
  sent_mails (attempt_calls inputs) = [].
Proof.
  unfold attempt_calls, sent_mails.
  induction inputs as [|i inputs IH]; simpl; [reflexivity | exact IH].
Qed.

(** Up to the end of the minting no mail has gone out. *)
Lemma no_mail_before_the_write (email : string) (w : state W) :
  let look := getCustomerAndExistingCode W email w in
  let check := emailHasAnyOrders W email (world_after look) in
  let mint := mint_loop W 5 (world_after check) in
  sent_mails (calls look ++ OrdersQuery (orders_search email) :: calls mint) = [].
Proof.
  cbv zeta.
  destruct (mint_loop_shape W 5
              (world_after (emailHasAnyOrders W email
                 (world_after (getCustomerAndExistingCode W email w)))))
    as (inputs & _ & -> & _).
  rewrite sent_mails_app.
  change (sent_mails (OrdersQuery (orders_search email) :: attempt_calls inputs))
    with (sent_mails (attempt_calls inputs)).
  rewrite no_mail_in_attempts.
  destruct (lookup_shaped W email w) as [-> | ->]; reflexivity.
Qed.

(** X10.  A first issuance that goes through: the customer has no code
    and no order, the minter returns a code, the platform takes the write
    and the transport the mail.  The answer is 200 with [{ok:true}], and
    the run ends with the write of that code on the customer of the
    lookup, then the mail of that same code; it is the only mail. *)
Theorem fresh_code_is_written_then_mailed
  (req : Request) (email code : string) (w : state W) (found : CustomerAndCode) :
  accepted W req email ->
  outcome (getCustomerAndExistingCode W email w) = Return found ->
  existingCode found = None ->
  let look := getCustomerAndExistingCode W email w in
  let check := emailHasAnyOrders W email (world_after look) in
  let mint := mint_loop W 5 (world_after check) in
  let set := setCustomerCodeMetafield W (id found) code (world_after mint) in
  let mail := code_email W email code in
  outcome check = Return false ->
  outcome mint = Return (Some code) ->
  outcome set = Return tt ->
  mail_accepted W mail (world_after set) ->
  handler W req w
  = (Return issued_ok, snd (sendMail W mail (world_after set)),
     (calls look ++ OrdersQuery (orders_search email) :: calls mint
      ++ [MetafieldsSet (code_metafield (id found) code); SendMail mail])%list) /\
  sent_mails (calls (handler W req w)) = [mail].
Proof.
  intros Hacc Hf Hc. cbv zeta. intros Hcheck Hmint Hset Hmail.
  rewrite (minted_run W req email code w found Hacc Hf Hc Hcheck Hmint).
  cbv zeta. rewrite Hset. unfold mail_accepted in Hmail. rewrite Hmail.
  split.
  - rewrite <- app_assoc. reflexivity.
  - runs. rewrite sent_mails_app, (no_mail_before_the_write email w). reflexivity.
Qed.

(** X11.  Persist before notify: when the platform refuses the write of
    the minted code, no mail is sent; the error is logged and the answer
    is the 500. *)
Theorem refused_write_sends_no_mail
  (req : Request) (email code : string) (w : state W) (found : CustomerAndCode)
  (e : Error) :
  accepted W req email ->
  outcome (getCustomerAndExistingCode W email w) = Return found ->
  existingCode found = None ->
  let look := getCustomerAndExistingCode W email w in
  let check := emailHasAnyOrders W email (world_after look) in
  let mint := mint_loop W 5 (world_after check) in
  let set := setCustomerCodeMetafield W (id found) code (world_after mint) in
  outcome check = Return false ->
  outcome mint = Return (Some code) ->
  outcome set = Throw e ->
  outcome (handler W req w) = Return server_error /\
  sent_mails (calls (handler W req w)) = [] /\
  exists d, calls (handler W req w) = (d ++ [ConsoleError e])%list.
Proof.
  intros Hacc Hf Hc. cbv zeta. intros Hcheck Hmint Hset.
  rewrite (minted_run W req email code w found Hacc Hf Hc Hcheck Hmint).
  cbv zeta. rewrite Hset. runs. split; [reflexivity|]. split.
  - rewrite sent_mails_app, (no_mail_before_the_write email w). reflexivity.
  - eexists.
    change [MetafieldsSet (code_metafield (id found) code); ConsoleError e]
      with ([MetafieldsSet (code_metafield (id found) code)] ++ [ConsoleError e])%list.
    rewrite app_assoc. reflexivity.
Qed.

(** X12.  No compensation: when the transport refuses the mail of a code
    that was just written, the answer is the 500 and the error is logged,
    but the write stays: it is the last call to the platform, and nothing
    undoes it. *)
Theorem refused_mail_keeps_the_written_code
  (req : Request) (email code : string) (w : state W) (found : CustomerAndCode)
  (e : Error) :
  accepted W req email ->
  outcome (getCustomerAndExistingCode W email w) = Return found ->
  existingCode found = None ->
  let look := getCustomerAndExistingCode W email w in
  let check := emailHasAnyOrders W email (world_after look) in
  let mint := mint_loop W 5 (world_after check) in
  let set := setCustomerCodeMetafield W (id found) code (world_after mint) in
  let mail := code_email W email code in
  outcome check = Return false ->
  outcome mint = Return (Some code) ->
  outcome set = Return tt ->
  fst (sendMail W mail (world_after set)) = Some e ->
  handler W req w
  = (Return server_error, snd (sendMail W mail (world_after set)),
     (calls look ++ OrdersQuery (orders_search email) :: calls mint
      ++ [MetafieldsSet (code_metafield (id found) code); SendMail mail;
          ConsoleError e])%list).
Proof.
  intros Hacc Hf Hc. cbv zeta. intros Hcheck Hmint Hset Hmail.
  rewrite (minted_run W req email code w found Hacc Hf Hc Hcheck Hmint).
  cbv zeta. rewrite Hset, Hmail. rewrite <- app_assoc. reflexivity.
Qed.

End Issued.

(** ** Runs in the model shop, continued *)

(** X5: the mail of Alice's stored code. *)
Lemma mail_address_witness :
  exists code,
    code <> "" /\
    code_email shop "alice@example.com" "WELCOME-ABC123"
    = code_email shop (request_email alice) code.
Proof.
  destruct (mail_goes_to_the_request_address shop alice shop_with_code
              (code_email shop "alice@example.com" "WELCOME-ABC123"))
    as (code & H1 & H2 & _).
  - vm_compute. auto.
  - now exists code.
Defined.

(** X6: Alice's first issuance. *)
Lemma written_code_witness :
  code_email shop "alice@example.com" "WELCOME-9F2A3C"
  = code_email shop (request_email alice)
      (value (code_metafield "gid://shopify/Customer/1" "WELCOME-9F2A3C")).
Proof.
  apply (written_code_is_the_mailed_code shop alice shop_fresh
           (code_metafield "gid://shopify/Customer/1" "WELCOME-9F2A3C")
           (code_email shop "alice@example.com" "WELCOME-9F2A3C")).
  - vm_compute. auto 10.
  - vm_compute. auto 10.
Defined.

(** X7: Alice's request without signature. *)
Lemma unverified_witness :
  handler shop alice_unsigned shop_fresh = (Return unauthorised, shop_fresh, []).
Proof.
  apply (unverified_post_answered_401 shop alice_unsigned shop_fresh).
  - reflexivity.
  - vm_compute. reflexivity.
Defined.

(** X8: the platform is out of service. *)
Lemma lookup_failure_witness :
  handler shop alice shop_down
  = (Return server_error, shop_down,
     [CustomersQuery "email:alice@example.com"; ConsoleError (mkError "fetch failed")]).
Proof.
  apply (lookup_failure_answered_500 shop alice "alice@example.com" shop_down
           (mkError "fetch failed")).
  - exact alice_accepted.
  - reflexivity.
Defined.

Lemma alice_accepted_orders_down : accepted shop_orders_down alice "alice@example.com".
Proof. repeat split; vm_compute; reflexivity. Qed.

Lemma alice_accepted_metafields_refused :
  accepted shop_metafields_refused alice "alice@example.com".
Proof. repeat split; vm_compute; reflexivity. Qed.

(** X9: the order search is out of service. *)
Lemma order_check_failure_witness :
  outcome (handler shop_orders_down alice shop_fresh) = Return server_error.
Proof.
  rewrite (order_check_failure_answered_500 shop_orders_down alice "alice@example.com"
             shop_fresh (mkError "fetch failed")).
  - reflexivity.
  - exact alice_accepted_orders_down.
  - eexists. split; reflexivity.
  - reflexivity.
Defined.

(** X10: Alice's first issuance goes through. *)
Lemma fresh_code_witness :
  sent_mails (calls (handler shop alice shop_fresh))
  = [code_email shop "alice@example.com" "WELCOME-9F2A3C"].
Proof.
  apply (fresh_code_is_written_then_mailed shop alice "alice@example.com"
           "WELCOME-9F2A3C" shop_fresh
           {| id := "gid://shopify/Customer/1"; existingCode := None |}).
  - exact alice_accepted.
  - reflexivity.
  - reflexivity.
  - reflexivity.
  - reflexivity.
  - reflexivity.
  - reflexivity.
Defined.

(** X11: the write of Alice's code is refused. *)
Lemma refused_write_witness :
  sent_mails (calls (handler shop_metafields_refused alice shop_fresh)) = [].
Proof.
  apply (refused_write_sends_no_mail shop_metafields_refused alice "alice@example.com"
           "WELCOME-9F2A3C" shop_fresh
           {| id := "gid://shopify/Customer/1"; existingCode := None |}
           (mkError "Owner does not exist")).
  - exact alice_accepted_metafields_refused.
  - reflexivity.
  - reflexivity.
  - reflexivity.
  - reflexivity.
  - reflexivity.
Defined.

(** X12: the mail of Alice's fresh code is refused. *)
Lemma refused_mail_witness :
  outcome (handler shop alice shop_fresh_no_mail) = Return server_error /\
  welcome_code_of "alice@example.com"
    (world_after (handler shop alice shop_fresh_no_mail)) = Some "WELCOME-9F2A3C".
Proof.
  rewrite (refused_mail_keeps_the_written_code shop alice "alice@example.com"
             "WELCOME-9F2A3C" shop_fresh_no_mail
             {| id := "gid://shopify/Customer/1"; existingCode := None |}
             (mkError "connect ECONNREFUSED")).
  - split; reflexivity.
  - exact alice_accepted.
  - reflexivity.
  - reflexivity.
  - reflexivity.
  - reflexivity.
  - reflexivity.
  - reflexivity.
Defined.

(** ** Validation and normalisation, continued *)

Lemma occurrences_app (c : ascii) (l1 l2 : list ascii) :
  occurrences c (l1 ++ l2) = occurrences c l1 + occurrences c l2.
Proof. unfold occurrences. now rewrite filter_app, length_app. Qed.

Lemma no_at_in_part (l : list ascii) :
  forallb not_space_or_at l = true ->
  occurrences "@" l = 0 /\ forallb (fun c => negb (Js.is_space c)) l = true.
Proof.
  unfold occurrences. induction l as [|c l IH]; [split; reflexivity|].
  cbn [forallb]. intros H. apply andb_true_iff in H as [Hc Hl].
  destruct (IH Hl) as [H1 H2].
  unfold not_space_or_at in Hc. apply negb_true_iff, orb_false_iff in Hc as [Hs Ha].
  change (filter (Ascii.eqb "@") (c :: l))
    with (if Ascii.eqb "@" c then c :: filter (Ascii.eqb "@") l
          else filter (Ascii.eqb "@") l).
  rewrite Ascii.eqb_sym, Ha, Hs, H2. split; [exact H1 | reflexivity].
Qed.

(** X13.  The validation lets through exactly the addresses of the form
    [local@domain.tld] whose three parts are non-empty and free of white
    space and of [@]; such an address has exactly one [@] and no white
    space at all. *)
Theorem validation_accepts_exactly_well_formed (email : string) :
  (email_rejected email = false <-> well_formed (Js.chars email)) /\
  (email_rejected email = false ->
   occurrences "@" (Js.chars email) = 1 /\
   forallb (fun c => negb (Js.is_space c)) (Js.chars email) = true).
Proof.
  assert (Hiff : email_rejected email = false <-> well_formed (Js.chars email)).
  { unfold email_rejected. rewrite orb_false_iff, !negb_false_iff. split.
    - intros [_ H]. now apply email_pattern_spec.
    - intros H. split; [|now apply email_pattern_spec].
      apply truthy_true. intros ->.
      destruct H as (a & b & c & Hl & _). now destruct a. }
  split; [exact Hiff|]. intros H. apply Hiff in H.
  destruct H as (a & b & c & -> & _ & _ & _ & Fa & Fb & Fc).
  destruct (no_at_in_part a Fa) as [Ha Sa].
  destruct (no_at_in_part b Fb) as [Hb Sb].
  destruct (no_at_in_part c Fc) as [Hc Sc].
  split.
  - rewrite occurrences_app, Ha.
    change ("@"%char :: b ++ "."%char :: c)%list
      with (["@"%char] ++ b ++ ["."%char] ++ c)%list.
    rewrite !occurrences_app, Hb, Hc. reflexivity.
  - rewrite forallb_app, Sa. simpl. rewrite forallb_app, Sb. simpl. exact Sc.
Qed.

Lemma lower_char_idempotent (c : ascii) :
  Js.lower_char (Js.lower_char c) = Js.lower_char c.
Proof. destruct c as [[] [] [] [] [] [] [] []]; reflexivity. Qed.

Lemma drop_spaces_split (l : list ascii) :
  exists pre, l = (pre ++ Js.drop_spaces l)%list /\ forallb Js.is_space pre = true.
Proof.
  induction l as [|c l (pre & Hl & Hp)]; simpl.
  - now exists [].
  - destruct (Js.is_space c) eqn:Hc.
    + exists (c :: pre). simpl. rewrite Hc, Hp. split; [now f_equal | reflexivity].
    + now exists [].
Qed.

Lemma drop_spaces_shorter (l : list ascii) : length (Js.drop_spaces l) <= length l.
Proof.
  induction l as [|c l IH]; simpl; [lia|]. destruct (Js.is_space c); simpl; lia.
Qed.

Lemma drop_spaces_idempotent (l : list ascii) :
  Js.drop_spaces (Js.drop_spaces l) = Js.drop_spaces l.
Proof.
  induction l as [|c l IH]; simpl; [reflexivity|].
  destruct (Js.is_space c) eqn:Hc; [exact IH|]. simpl. now rewrite Hc.
Qed.

Lemma drop_spaces_prefix (t post : list ascii) :
  Js.drop_spaces (t ++ post) = (t ++ post)%list -> forallb Js.is_space post = true ->
  Js.drop_spaces t = t.
Proof.
  destruct t as [|c t]; [reflexivity|]. simpl. intros H _.
  destruct (Js.is_space c); [|reflexivity].
  pose proof (drop_spaces_shorter (t ++ post)) as Hlen.
  rewrite H in Hlen. simpl in Hlen. lia.
Qed.

Lemma trim_chars_idempotent (l : list ascii) :
  Js.trim_chars (Js.trim_chars l) = Js.trim_chars l.
Proof.
  unfold Js.trim_chars.
  set (a := Js.drop_spaces l).
  destruct (drop_spaces_split (rev a)) as (pre & Hsplit & Hpre).
  set (b := Js.drop_spaces (rev a)) in *.
  assert (Ha : a = (rev b ++ rev pre)%list).
  { rewrite <- rev_app_distr, <- Hsplit. now rewrite rev_involutive. }
  assert (Hclean : Js.drop_spaces (rev b) = rev b).
  { apply drop_spaces_prefix with (rev pre).
    - rewrite <- Ha. apply drop_spaces_idempotent.
    - now rewrite forallb_rev. }
  rewrite Hclean, rev_involutive. unfold b. now rewrite drop_spaces_idempotent.
Qed.

(** X14.  Normalising twice is normalising once: what the handler works
    with has no white space around it and no upper-case letter left, so
    that a client may send back the address it was answered for. *)
Theorem normalisation_is_idempotent (req : Request) :
  request_email
    {| method := method req; host := host req; url := url req;
       body_email := Js.Str (request_email req) |}
  = request_email req /\
  Js.trim (request_email req) = request_email req /\
  Js.toLowerCase (request_email req) = request_email req.
Proof.
  unfold request_email. simpl.
  set (l := Js.chars (Js.or_empty_String (body_email req))).
  unfold Js.toLowerCase, Js.trim. fold l. rewrite !chars_str.
  assert (Ht : Js.trim_chars (map Js.lower_char (Js.trim_chars l))
               = map Js.lower_char (Js.trim_chars l)).
  { now rewrite trim_chars_lower, trim_chars_idempotent. }
  assert (Hl : map Js.lower_char (map Js.lower_char (Js.trim_chars l))
               = map Js.lower_char (Js.trim_chars l)).
  { rewrite map_map. apply map_ext. intros c. apply lower_char_idempotent. }
  split; [|split].
  - now rewrite Ht, Hl.
  - now rewrite Ht.
  - now rewrite Hl.
Qed.

(** ** Codes, collisions and the mail *)

Lemma digit_value_upper (c : ascii) :
  Hex.digit_value (Js.upper_char c) = Hex.digit_value c.
Proof. destruct c as [[] [] [] [] [] [] [] []]; reflexivity. Qed.

Lemma decode_chars_upper (l : list ascii) :
  Hex.decode_chars (map Js.upper_char l) = Hex.decode_chars l.
Proof.
  assert (H : forall n l, length l <= n ->
                Hex.decode_chars (map Js.upper_char l) = Hex.decode_chars l).
  { clear l. induction n as [|n IH]; intros [|a [|b rest]] Hlen; simpl in *;
      try reflexivity; try lia.
    rewrite !digit_value_upper.
    destruct (Hex.digit_value a); [|reflexivity].
    destruct (Hex.digit_value b); [|reflexivity].
    f_equal. apply IH. lia. }
  now apply (H (length l)).
Qed.

Lemma append_cancel (p s t : string) : p ++ s = p ++ t -> s = t.
Proof.
  induction p as [|c p IH]; simpl; [auto|]. intros H. injection H as H. now apply IH.
Qed.

(** X15.  Different bytes, different codes: the candidate determines the
    three bytes it was made from, so that two candidates collide only
    when the generator repeats itself. *)
Theorem code_of_bytes_injective (r1 r2 : byte * byte * byte) :
  code_of_bytes r1 = code_of_bytes r2 -> r1 = r2.
Proof.
  destruct r1 as [[a1 a2] a3], r2 as [[b1 b2] b3]. unfold code_of_bytes.
  intros H. apply append_cancel in H.
  assert (Hd : forall bs, Hex.decode (Js.toUpperCase (Hex.encode bs)) = bs).
  { intros bs. unfold Hex.decode, Js.toUpperCase. rewrite chars_str, decode_chars_upper.
    apply decode_encode. }
  apply (f_equal Hex.decode) in H.
  rewrite !Hd in H. now injection H as -> -> ->.
Qed.

Lemma starts_with_app (t l r : list ascii) :
  Js.starts_with t l = true -> Js.starts_with t (l ++ r) = true.
Proof.
  revert l. induction t as [|a t IH]; intros [|b l]; simpl; try reflexivity;
    try discriminate.
  intros H. apply andb_true_iff in H as [H1 H2]. rewrite H1. now apply IH.
Qed.

Lemma starts_with_itself (t r : list ascii) : Js.starts_with t (t ++ r) = true.
Proof.
  induction t as [|a t IH]; simpl; [reflexivity|]. now rewrite Ascii.eqb_refl.
Qed.

Lemma includes_chars_start (l t : list ascii) :
  Js.starts_with t l = true -> Js.includes_chars l t = true.
Proof. intros H. destruct l; simpl; now rewrite H. Qed.

Lemma includes_chars_app_l (l r t : list ascii) :
  Js.includes_chars l t = true -> Js.includes_chars (l ++ r) t = true.
Proof.
  induction l as [|c l IH]; simpl.
  - rewrite orb_false_r. intros H. apply includes_chars_start.
    now apply (starts_with_app t [] r).
  - intros H. apply orb_true_iff in H as [H|H].
    + pose proof (starts_with_app t (c :: l) r H) as H'.
      change ((c :: l) ++ r)%list with (c :: l ++ r)%list in H'. now rewrite H'.
    + rewrite (IH H). apply orb_true_r.
Qed.

Lemma includes_chars_app_r (l r t : list ascii) :
  Js.includes_chars r t = true -> Js.includes_chars (l ++ r) t = true.
Proof.
  intros H. induction l as [|c l IH]; simpl; [exact H|].
  rewrite IH. apply orb_true_r.
Qed.

Lemma includes_chars_middle (pre l post t : list ascii) :
  Js.includes_chars l t = true -> Js.includes_chars (pre ++ l ++ post) t = true.
Proof. intros H. now apply includes_chars_app_r, includes_chars_app_l. Qed.

Lemma join_contains (sep msg : string) (errs : list string) :
  In msg errs ->
  exists pre post, Js.chars (Js.join sep errs) = (pre ++ Js.chars msg ++ post)%list.
Proof.
  induction errs as [|x rest IH]; [contradiction|].
  intros [-> | Hin].
  - destruct rest as [|y rest].
    + exists [], []. simpl. now rewrite app_nil_r.
    + exists [], (Js.chars (sep ++ Js.join sep (y :: rest))).
      change (Js.join sep (msg :: y :: rest))
        with (msg ++ sep ++ Js.join sep (y :: rest)).
      now rewrite chars_app.
  - destruct (IH Hin) as (pre & post & H).
    destruct rest as [|y rest]; [contradiction|].
    exists (Js.chars x ++ Js.chars sep ++ pre)%list, post.
    change (Js.join sep (x :: y :: rest)) with (x ++ sep ++ Js.join sep (y :: rest)).
    rewrite !chars_app, H. now rewrite <- !app_assoc.
Qed.

Lemma lower_upper_char (c : ascii) :
  Js.lower_char (Js.upper_char c) = Js.lower_char c.
Proof. destruct c as [[] [] [] [] [] [] [] []]; reflexivity. Qed.

Lemma searchParams_get_cons (name k v : string) (ps : list (string * string)) :
  searchParams_get name ((k, v) :: ps)
  = if k =? name then Some v else searchParams_get name ps.
Proof. reflexivity. Qed.

Lemma searchParams_delete_cons (name k v : string) (ps : list (string * string)) :
  searchParams_delete name ((k, v) :: ps)
  = if k =? name then searchParams_delete name ps
    else (k, v) :: searchParams_delete name ps.
Proof.
  unfold searchParams_delete. cbn [filter fst]. now destruct (k =? name).
Qed.

Section Collisions.

Variable W : World.

(** X16.  The collision test reads the whole message of the error,
    whatever its case: when any one of the user errors of a creation says
    the code [has already been taken], the attempt counts as a collision
    and the loop goes on instead of failing. *)
Theorem any_taken_user_error_is_retried
  (w : state W) (body msg : string) (out : DiscountCreatePayload) :
  fst (next_reply W w) = Responded true None body out ->
  In msg (discountCreate_userErrors out) ->
  already_taken (mkError msg) = true ->
  already_taken (mkError (Js.toUpperCase msg)) = true /\
  collision (fst (next_reply W w)) = true /\
  outcome (mint_attempt W w) = Return None.
Proof.
  intros Hreply Hin Htaken.
  assert (Hjoin : already_taken (mkError (Js.join ", " (discountCreate_userErrors out)))
                  = true).
  { unfold already_taken, Js.includes, Js.toLowerCase in *. simpl message in *.
    rewrite chars_str in *.
    destruct (join_contains ", " msg _ Hin) as (pre & post & ->).
    rewrite !map_app. now apply includes_chars_middle. }
  assert (Herr : creation_error (fst (next_reply W w))
                 = Some (mkError (Js.join ", " (discountCreate_userErrors out)))).
  { rewrite Hreply. simpl. destruct (discountCreate_userErrors out); [contradiction|].
    reflexivity. }
  split; [|split].
  - unfold already_taken, Js.includes, Js.toLowerCase, Js.toUpperCase in *.
    simpl message in *. rewrite !chars_str in *. rewrite map_map.
    rewrite (map_ext _ _ lower_upper_char). exact Htaken.
  - unfold collision. now rewrite Herr.
  - rewrite mint_attempt_run. runs. now rewrite Herr, Hjoin.
Qed.

(** X17.  The mail carries the code: the code it was made for occurs in
    its body. *)
Theorem mail_carries_the_code (to code : string) :
  Js.includes (html (code_email W to code)) code = true.
Proof.
  change (html (code_email W to code)) with (code_email_html code).
  unfold Js.includes, code_email_html. rewrite !chars_app.
  repeat first [ apply includes_chars_start, starts_with_itself
               | apply includes_chars_app_r ].
Qed.

(** X18.  The signature is left out of what is signed: no [signature]
    parameter survives the removal, the parameters of any other name are
    read as before, and the base is the same wherever a signature
    parameter sits and whatever it holds. *)
Theorem signature_is_left_out_of_the_base :
  (forall ps,
      searchParams_get "signature" (searchParams_delete "signature" ps) = None) /\
  (forall ps name,
      name <> "signature" ->
      searchParams_get name (searchParams_delete "signature" ps)
      = searchParams_get name ps) /\
  (forall p ps1 s ps2,
      signature_base W (mkURL p (ps1 ++ ("signature", s) :: ps2))
      = signature_base W (mkURL p (ps1 ++ ps2))).
Proof.
  split; [|split].
  - induction ps as [|[k v] ps IH]; [reflexivity|].
    rewrite searchParams_delete_cons.
    destruct (String.eqb_spec k "signature") as [->|Hk]; [exact IH|].
    rewrite searchParams_get_cons.
    destruct (String.eqb_spec k "signature"); [contradiction | exact IH].
  - intros ps name Hn. induction ps as [|[k v] ps IH]; [reflexivity|].
    rewrite searchParams_delete_cons, !searchParams_get_cons.
    destruct (String.eqb_spec k "signature") as [->|Hk].
    + destruct (String.eqb_spec "signature" name); [congruence | exact IH].
    + rewrite searchParams_get_cons. now rewrite IH.
  - intros p ps1 s ps2. unfold signature_base, searchParams_delete.
    cbn [searchParams pathname]. rewrite !filter_app.
    change (filter (fun kv => negb (fst kv =? "signature")) (("signature", s) :: ps2))
      with (filter (fun kv : string * string => negb (fst kv =? "signature")) ps2).
    reflexivity.
Qed.

(** X19.  The lookup never reports an empty code, never creates a
    customer it has found, and a customer it had to create carries no
    code. *)
Theorem lookup_reports_real_codes_only
  (email : string) (w : state W) (found : CustomerAndCode) :
  outcome (getCustomerAndExistingCode W email w) = Return found ->
  existingCode found <> Some "" /\
  (existingCode found <> None ->
   calls (getCustomerAndExistingCode W email w)
   = [CustomersQuery (customers_search email)]) /\
  (In (CustomerCreate email) (calls (getCustomerAndExistingCode W email w)) ->
   existingCode found = None).
Proof.
  intros Hf. destruct (lookup_calls W email w) as [_ H].
  destruct (existingCode found) as [c|] eqn:Hc.
  - destruct (H found c Hf Hc) as [Hcalls Hne]. split; [congruence|]. split.
    + intros _. exact Hcalls.
    + rewrite Hcalls. simpl. intuition discriminate.
  - split; [discriminate|]. split; [congruence | reflexivity].
Qed.

End Collisions.

(** X15: two draws of the same bytes. *)
Lemma code_of_bytes_witness : (x9f, x2a, x3c) = (x9f, x2a, x3c).
Proof. apply (code_of_bytes_injective (x9f, x2a, x3c) (x9f, x2a, x3c)). reflexivity. Defined.

(** X16: the user error of the model shop. *)
Lemma taken_user_error_witness :
  outcome (mint_attempt shop shop_colliding) = Return None.
Proof.
  apply (any_taken_user_error_is_retried shop shop_colliding ""
           "Code has already been taken"
           (mkDiscountCreatePayload None ["Code has already been taken"])).
  - reflexivity.
  - now left.
  - reflexivity.
Defined.

(** X18: the shop parameter of Alice's request. *)
Lemma signature_left_out_witness :
  searchParams_get "shop"
    (searchParams_delete "signature" [("shop", "tiadem"); ("signature", "00")])
  = Some "tiadem".
Proof.
  apply (proj1 (proj2 (signature_is_left_out_of_the_base shop))
           [("shop", "tiadem"); ("signature", "00")] "shop").
  discriminate.
Defined.

(** X19: Alice's empty metafield. *)
Lemma lookup_reports_witness :
  existingCode {| id := "gid://shopify/Customer/1"; existingCode := None |} <> Some "".
Proof.
  apply (lookup_reports_real_codes_only shop "alice@example.com" shop_with_empty_code
           {| id := "gid://shopify/Customer/1"; existingCode := None |}).
  reflexivity.
Defined.

(** X13: Alice's address. *)
Lemma validation_witness :
  occurrences "@" (Js.chars "alice@example.com") = 1 /\
  forallb (fun c => negb (Js.is_space c)) (Js.chars "alice@example.com") = true.
Proof.
  apply (proj2 (validation_accepts_exactly_well_formed "alice@example.com")).
  vm_compute. reflexivity.
Defined.

(* ================================================================== *)
(** * Part IV: the resend, the empty stored code and the minting loop   *)
(* ================================================================== *)

(** ** The resend *)

Lemma code_email_carries (W : World) (to code : string) :
  Js.includes (html (code_email W to code)) code = true.
Proof.
  change (html (code_email W to code)) with (code_email_html code).
  unfold Js.includes, code_email_html. rewrite !chars_app.
  repeat first [ apply includes_chars_start, starts_with_itself
               | apply includes_chars_app_r ].
Qed.

Section Resend.

Variable W : World.

(** C1, as amended.  A verified, validated request whose email resolves
    to a customer with a stored code hands one message to the mail
    transport: it goes to that email, from the configured sender, under
    the fixed subject, and its body carries exactly that code.  The Code
    Minter is called for nothing: no candidate is drawn, no discount is
    created.  The answer is 200 with [{ok:true}] when the transport
    takes the message; when it refuses, the error is logged and the
    answer is 500 with [{ok:false}].  A second such request for the same
    email, served from the state the first one left, hands over the same
    message and is answered by the same rule. *)
Theorem stored_code_is_resent
  (req req' : Request) (email code : string) (w : state W) :
  accepted W req email ->
  resolves_to_code W email code w ->
  let first := handler W req w in
  let second := handler W req' (world_after first) in
  exists mail,
    to mail = email /\
    from mail = EMAIL_FROM (env W) /\
    subject mail = "Your 10% welcome code" /\
    Js.includes (html mail) code = true /\
    code <> "" /\
    sent_mails (calls first) = [mail] /\
    minter_calls (calls first) = [] /\
    match fst (sendMail W mail (world_after (getCustomerAndExistingCode W email w))) with
    | None =>
        outcome first = Return resent_ok /\
        calls first = [CustomersQuery (customers_search email); SendMail mail]
    | Some e =>
        outcome first = Return server_error /\
        calls first
        = [CustomersQuery (customers_search email); SendMail mail; ConsoleError e]
    end /\
    (accepted W req' email ->
     resolves_to_code W email code (world_after first) ->
     sent_mails (calls second) = [mail] /\
     minter_calls (calls second) = [] /\
     match fst (sendMail W mail
                  (world_after (getCustomerAndExistingCode W email (world_after first))))
     with
     | None => outcome second = Return resent_ok
     | Some e => outcome second = Return server_error
     end).
Proof.
  intros Hacc Hres. cbv zeta.
  exists (code_email W email code).
  assert (Hone : forall r v,
             accepted W r email -> resolves_to_code W email code v ->
             sent_mails (calls (handler W r v)) = [code_email W email code] /\
             minter_calls (calls (handler W r v)) = [] /\
             match fst (sendMail W (code_email W email code)
                          (world_after (getCustomerAndExistingCode W email v)))
             with
             | None =>
                 outcome (handler W r v) = Return resent_ok /\
                 calls (handler W r v)
                 = [CustomersQuery (customers_search email);
                    SendMail (code_email W email code)]
             | Some e =>
                 outcome (handler W r v) = Return server_error /\
                 calls (handler W r v)
                 = [CustomersQuery (customers_search email);
                    SendMail (code_email W email code); ConsoleError e]
             end).
  { intros r v Ha Hr. rewrite (resend_run W r email code v Ha Hr). cbv zeta.
    destruct (fst (sendMail W (code_email W email code) _)) as [e|];
      repeat split; reflexivity. }
  assert (Hcode : code <> "").
  { destruct Hres as (found & Hf & Hc).
    pose proof (lookup_calls W email w) as H. cbv zeta in H.
    now destruct (proj2 H found code Hf Hc). }
  destruct (Hone req w Hacc Hres) as (Hm & Hn & Hok).
  do 3 (split; [reflexivity|]).
  split; [apply code_email_carries|].
  split; [exact Hcode|]. split; [exact Hm|]. split; [exact Hn|]. split; [exact Hok|].
  intros Hacc' Hres'.
  destruct (Hone req' _ Hacc' Hres') as (Hm' & Hn' & Hok').
  split; [exact Hm'|]. split; [exact Hn'|].
  revert Hok'.
  match goal with
  | |- match ?x with _ => _ end -> _ => destruct x
  end; intros [H _]; exact H.
Qed.

End Resend.

Lemma alice_resolves_to_code (s : Shop.t) :
  Shop.customers s = Shop.customers shop_with_code ->
  Shop.graphql_up s = true ->
  resolves_to_code shop "alice@example.com" "WELCOME-ABC123" s.
Proof.
  intros Hc Hup. eexists.
  unfold getCustomerAndExistingCode, shopifyGQL, bind, perform.
  simpl. unfold Shop.customers_query. rewrite Hup, Hc. simpl. split; reflexivity.
Qed.

(** C1: Alice asks twice; both times [WELCOME-ABC123] is mailed to her
    and the answer is 200. *)
Lemma stored_code_witness :
  exists mail,
    to mail = "alice@example.com" /\
    Js.includes (html mail) "WELCOME-ABC123" = true /\
    sent_mails (calls (handler shop alice shop_with_code)) = [mail] /\
    minter_calls (calls (handler shop alice shop_with_code)) = [] /\
    outcome (handler shop alice shop_with_code) = Return resent_ok /\
    sent_mails (calls (handler shop alice (world_after (handler shop alice shop_with_code))))
    = [mail] /\
    outcome (handler shop alice (world_after (handler shop alice shop_with_code)))
    = Return resent_ok.
Proof.
  destruct (stored_code_is_resent shop alice alice "alice@example.com" "WELCOME-ABC123"
              shop_with_code alice_accepted (alice_resolves_to_code _ eq_refl eq_refl))
    as (mail & Hto & _ & _ & Hbody & _ & Hsent & Hmint & Hfirst & Hsecond).
  assert (Hmail : mail = code_email shop "alice@example.com" "WELCOME-ABC123").
  { change (sent_mails (calls (handler shop alice shop_with_code)))
      with [code_email shop "alice@example.com" "WELCOME-ABC123"] in Hsent.
    now injection Hsent. }
  exists mail. split; [exact Hto|]. split; [exact Hbody|]. split; [exact Hsent|].
  split; [exact Hmint|].
  destruct (Hsecond alice_accepted (alice_resolves_to_code _ eq_refl eq_refl))
    as (Hsent' & _ & Hanswer).
  subst mail. split; [exact (proj1 Hfirst)|]. split; [exact Hsent' | exact Hanswer].
Defined.

(** C1, counterexample.  Alice holds a code and the mail transport is
    down: the request is verified and valid, her email resolves to the
    stored code, and the answer is not the 200 but the 500 with
    [{ok:false}]. *)
Lemma refused_resend_is_answered_500 :
  accepted shop alice "alice@example.com" /\
  resolves_to_code shop "alice@example.com" "WELCOME-ABC123" shop_with_code_no_mail /\
  exists r,
    outcome (handler shop alice shop_with_code_no_mail) = Return r /\
    status r = 500 /\ ok r = false /\ status r <> 200.
Proof.
  split; [exact alice_accepted|].
  split; [apply alice_resolves_to_code; reflexivity|].
  exists server_error. repeat split. discriminate.
Qed.

(** ** The empty stored code *)

Section EmptyCode.

Variable W : World.

Lemma no_write_in_attempts (n : nat) (w : state W) :
  filter is_metafield_write (calls (mint_loop W n w)) = [] /\
  sent_mails (calls (mint_loop W n w)) = [].
Proof.
  destruct (mint_loop_shape W n w) as (inputs & _ & -> & _). split.
  - now apply filter_attempt_calls.
  - unfold attempt_calls. induction inputs as [|i inputs IH]; [reflexivity | exact IH].
Qed.

Lemma writes_after_attempts (q o : Event) (mint rest : list Event) :
  is_metafield_write q = false ->
  is_metafield_write o = false ->
  filter is_metafield_write mint = [] ->
  filter is_metafield_write (q :: o :: mint ++ rest) = filter is_metafield_write rest.
Proof. intros Hq Ho Hm. simpl. now rewrite Hq, Ho, filter_app, Hm. Qed.

Lemma mails_after_attempts (q o : Event) (mint rest : list Event) :
  is_mail q = false ->
  is_mail o = false ->
  sent_mails mint = [] ->
  sent_mails (q :: o :: mint ++ rest) = sent_mails rest.
Proof.
  intros Hq Ho Hm. unfold sent_mails in *.
  change (q :: o :: mint ++ rest)%list with ([q] ++ [o] ++ mint ++ rest)%list.
  rewrite !flat_map_app, Hm.
  destruct q; try discriminate; destruct o; try discriminate; reflexivity.
Qed.

(** C9, as amended.  A customer whose welcome-code metafield holds the
    empty string is reported without a code.  The handler does not
    resend: its second call is the order search.  With a prior order the
    answer is 409.  Without one the minter is started.  When it returns
    a code, that code is not empty and is written, right after the
    attempts and as the only write of the request, to the metafield
    [welcome]/[code] of that customer, of type [single_line_text_field].
    When it returns none, nothing is written, nothing is mailed and the
    answer is the 500. *)
Theorem empty_stored_code_is_no_code
  (req : Request) (email body : string) (node : CustomerNode)
  (rest : list CustomerNode) (w w1 : state W) :
  accepted W req email ->
  fetch_customers W (customers_search email) w
  = (Responded true None body (node :: rest), w1) ->
  metafield node = Some "" ->
  let run := handler W req w in
  let check := emailHasAnyOrders W email w1 in
  let mint := mint_loop W 5 (world_after check) in
  getCustomerAndExistingCode W email w
  = (Return {| id := node_id node; existingCode := None |}, w1,
     [CustomersQuery (customers_search email)]) /\
  (exists later,
      calls run = CustomersQuery (customers_search email)
                  :: OrdersQuery (orders_search email) :: later) /\
  (outcome check = Return true -> outcome run = Return conflict) /\
  (outcome check = Return false ->
   (exists later,
       calls run = CustomersQuery (customers_search email)
                   :: OrdersQuery (orders_search email)
                   :: RandomBytes 3 :: later) /\
   match outcome mint with
   | Return (Some code) =>
       code <> "" /\
       exists m later,
         calls run = (CustomersQuery (customers_search email)
                      :: OrdersQuery (orders_search email)
                      :: calls mint ++ MetafieldsSet m :: later)%list /\
         filter is_metafield_write (calls run) = [MetafieldsSet m] /\
         ownerId m = node_id node /\
         namespace m = "welcome" /\
         key m = "code" /\
         type m = "single_line_text_field" /\
         value m = code
   | _ =>
       outcome run = Return server_error /\
       filter is_metafield_write (calls run) = [] /\
       sent_mails (calls run) = []
   end).
Proof.
  intros Hacc Hq Hm. cbv zeta.
  assert (Hlook : getCustomerAndExistingCode W email w
                  = (Return {| id := node_id node; existingCode := None |}, w1,
                     [CustomersQuery (customers_search email)])).
  { unfold getCustomerAndExistingCode, shopifyGQL, bind, perform.
    rewrite Hq. simpl. rewrite Hm. reflexivity. }
  split; [exact Hlook|].
  assert (Hf : outcome (getCustomerAndExistingCode W email w)
               = Return {| id := node_id node; existingCode := None |})
    by now rewrite Hlook.
  rewrite (handler_without_code W req email w _ Hacc Hf eq_refl). cbv zeta.
  assert (Hw : world_after (getCustomerAndExistingCode W email w) = w1)
    by now rewrite Hlook.
  assert (Hd : calls (getCustomerAndExistingCode W email w)
               = [CustomersQuery (customers_search email)])
    by now rewrite Hlook.
  rewrite issue_run. cbv zeta. rewrite Hw, Hd. clear Hw Hd Hf.
  set (check := emailHasAnyOrders W email w1).
  set (mint := mint_loop W 5 (world_after check)).
  destruct (mint_loop_starts W 4 (world_after check)) as (later & Hs).
  destruct (mint_loop_shape W 5 (world_after check)) as (_ & _ & _ & Hcode).
  destruct (no_write_in_attempts 5 (world_after check)) as [Hnw Hnm].
  fold mint in Hs, Hcode, Hnw, Hnm.
  split; [|split].
  - destruct (outcome check) as [[|]|e]; runs; try (eexists; reflexivity).
    destruct (outcome mint) as [[c|]|e]; runs; try (eexists; reflexivity).
    case_outcome; runs; eexists; reflexivity.
  - intros ->. reflexivity.
  - intros ->. cbv iota. split.
    + destruct (outcome mint) as [[c|]|e]; runs;
        try (rewrite Hs; runs; eexists; reflexivity).
      case_outcome; runs; rewrite Hs; runs; eexists; reflexivity.
    + destruct (outcome mint) as [[code|]|e] eqn:Hmint; runs.
      * split; [now apply Hcode|]. simpl id.
        rewrite persist_notify_run. cbv zeta.
        exists (code_metafield (node_id node) code).
        destruct (outcome (setCustomerCodeMetafield W (node_id node) code
                             (world_after mint))) as [[]|e]; runs;
          [destruct (fst (sendMail W (code_email W email code) _)) as [e|]; runs|];
          rewrite <- ?app_assoc; eexists; (split; [reflexivity|]);
          (split; [|repeat split]);
          now rewrite writes_after_attempts.
      * split; [reflexivity|]. split.
        -- now rewrite writes_after_attempts.
        -- now rewrite mails_after_attempts.
      * split; [reflexivity|]. split.
        -- now rewrite writes_after_attempts.
        -- now rewrite mails_after_attempts.
Qed.

End EmptyCode.

(** C9: Alice's metafield holds the empty string and she has no order;
    [WELCOME-9F2A3C] is minted and written to her record. *)
Lemma empty_stored_code_witness :
  exists m later,
    calls (handler shop alice shop_with_empty_code)
    = (CustomersQuery (customers_search "alice@example.com")
       :: OrdersQuery (orders_search "alice@example.com")
       :: calls (mint_loop shop 5 shop_with_empty_code)
       ++ MetafieldsSet m :: later)%list /\
    ownerId m = "gid://shopify/Customer/1" /\
    value m = "WELCOME-9F2A3C".
Proof.
  destruct (empty_stored_code_is_no_code shop alice "alice@example.com" ""
              (mkCustomerNode "gid://shopify/Customer/1" "alice@example.com" (Some ""))
              [] shop_with_empty_code shop_with_empty_code
              alice_accepted eq_refl eq_refl) as (_ & _ & _ & H).
  destruct (H eq_refl) as (_ & Hm). clear H. cbv zeta in Hm.
  change (outcome (mint_loop shop 5
                     (world_after (emailHasAnyOrders shop "alice@example.com"
                                     shop_with_empty_code))))
    with (Return (A := option string) (Some "WELCOME-9F2A3C")) in Hm.
  destruct Hm as (_ & m & later & Hcalls & _ & Ho & _ & _ & _ & Hv).
  exists m, later. split; [exact Hcalls|]. split; [exact Ho | exact Hv].
Defined.

(** C9, counterexample.  Alice's metafield holds the empty string, she
    has no order, and the platform refuses to create discounts: nothing
    is minted, the answer is the 500, and the metafield is left as it
    was. *)
Lemma empty_code_is_kept_when_minting_fails :
  accepted shop_discounts_down alice "alice@example.com" /\
  fetch_customers shop_discounts_down (customers_search "alice@example.com")
    shop_with_empty_code
  = (Responded true None ""
       [mkCustomerNode "gid://shopify/Customer/1" "alice@example.com" (Some "")],
     shop_with_empty_code) /\
  outcome (emailHasAnyOrders shop_discounts_down "alice@example.com" shop_with_empty_code)
  = Return false /\
  outcome (handler shop_discounts_down alice shop_with_empty_code) = Return server_error /\
  filter is_metafield_write (calls (handler shop_discounts_down alice shop_with_empty_code))
  = [] /\
  welcome_code_of "alice@example.com"
    (world_after (handler shop_discounts_down alice shop_with_empty_code))
  = Some "".
Proof.
  split; [repeat split; vm_compute; reflexivity|].
  repeat split.
Qed.

(** ** The collision test, by the message *)

Lemma lower_char_spells (c : ascii) :
  (N_of_ascii (Js.lower_char c) < 128)%N -> spells c (Js.lower_char c).
Proof.
  destruct c as [[] [] [] [] [] [] [] []]; intros H;
    first [ now left
          | right; repeat split; simpl; lia
          | exfalso; simpl in H; lia ].
Qed.

Lemma spells_lower_char (c p : ascii) :
  spells c p -> Js.lower_char p = p -> Js.lower_char c = p.
Proof.
  intros [-> | (H1 & H2 & H3)] Hp; [exact Hp|].
  assert (H : p = ascii_of_N (N_of_ascii c + 32)).
  { rewrite <- H3. symmetry. apply ascii_N_embedding. }
  subst p. clear H3 Hp.
  destruct c as [[] [] [] [] [] [] [] []];
    first [ reflexivity | exfalso; simpl in H1, H2; lia ].
Qed.

Lemma starts_with_split (t l : list ascii) :
  Js.starts_with t l = true -> exists post, l = (t ++ post)%list.
Proof.
  revert l. induction t as [|a t IH]; intros l H.
  - now exists l.
  - destruct l as [|b l]; [discriminate|]. simpl in H.
    apply andb_true_iff in H as [Hab Ht]. apply Ascii.eqb_eq in Hab. subst b.
    destruct (IH l Ht) as (post & ->). now exists post.
Qed.

Lemma includes_chars_split (l t : list ascii) :
  Js.includes_chars l t = true -> exists pre post, l = (pre ++ t ++ post)%list.
Proof.
  induction l as [|c l IH]; simpl; intros H.
  - rewrite orb_false_r in H. apply starts_with_split in H as (post & H).
    now exists [], post.
  - apply orb_true_iff in H as [H|H].
    + apply starts_with_split in H as (post & H). now exists [], post.
    + destruct (IH H) as (pre & post & ->). now exists (c :: pre), post.
Qed.

Lemma lowered_spells (l l' : list ascii) :
  map Js.lower_char l = l' ->
  Forall (fun p => (N_of_ascii p < 128)%N) l' ->
  Forall2 spells l l'.
Proof.
  intros <-. induction l as [|c l IH]; simpl; intros H; [constructor|].
  inversion H; subst. constructor; [now apply lower_char_spells | now apply IH].
Qed.

Lemma spelled_lowered (l l' : list ascii) :
  Forall2 spells l l' ->
  map Js.lower_char l' = l' ->
  map Js.lower_char l = l'.
Proof.
  induction 1 as [|c p l l' Hc _ IH]; simpl; [reflexivity|].
  intros H. injection H as Hp Hl'.
  now rewrite (spells_lower_char c p Hc Hp), (IH Hl').
Qed.

(** The test of the route is the reading of the message: the phrase
    occurs in it, in whatever case. *)
Lemma already_taken_spec (e : Error) :
  already_taken e = true <-> says_taken (message e).
Proof.
  unfold already_taken, says_taken, Js.includes, Js.toLowerCase. rewrite chars_str.
  split.
  - intros H. apply includes_chars_split in H as (pre & post & H).
    apply map_eq_app in H as (pre' & rest & Hl & _ & H).
    apply map_eq_app in H as (mid & post' & -> & Hmid & _).
    exists pre', mid, post'. split; [exact Hl|].
    apply lowered_spells; [exact Hmid|].
    repeat (constructor; [reflexivity|]). constructor.
  - intros (pre & mid & post & -> & Hv).
    rewrite !map_app. apply includes_chars_middle.
    rewrite (spelled_lowered _ _ Hv eq_refl).
    reflexivity.
Qed.

Lemma not_taken_spec (e : Error) :
  already_taken e = false <-> ~ says_taken (message e).
Proof.
  rewrite <- already_taken_spec. now destruct (already_taken e).
Qed.

Section Retry.

Variable W : World.

(** The creation of an attempt, in terms of what the world answers. *)
Lemma next_creation_run (w : state W) :
  next_creation W w
  = (match creation_error (fst (next_reply W w)) with
     | None => Return (reply_code (fst (next_reply W w)) (code (next_input W w)))
     | Some e => Throw e
     end,
     snd (next_reply W w),
     [DiscountCodeBasicCreate (next_input W w)]).
Proof.
  unfold next_creation, createOneTimeTenPercent, shopifyGQL, bind, perform, observe,
    ret, throw, next_reply, next_input.
  destruct (randomBytes3 W w) as [r w1]. simpl.
  destruct (fetch_discountCodeBasicCreate W _ w1) as [[e|r_ok errs body out] w2]; simpl;
    [reflexivity|].
  destruct errs as [rendered|]; simpl; [reflexivity|].
  destruct r_ok; simpl; [|reflexivity].
  now destruct (Nat.ltb 0 (length (discountCreate_userErrors out))).
Qed.

Lemma collides_collision (w : state W) :
  collides W w -> collision (fst (next_reply W w)) = true.
Proof.
  intros (e & He & Ht). rewrite next_creation_run in He. unfold outcome in He. simpl in He.
  unfold collision. destruct (creation_error (fst (next_reply W w))) as [e'|];
    [|discriminate].
  injection He as ->. now apply already_taken_spec.
Qed.

Lemma collided_after_collisions (k : nat) (w wk : state W) :
  collided W k w wk -> after_collisions W k w = Some wk.
Proof.
  revert w. induction k as [|k IH]; intros w; simpl.
  - now intros ->.
  - intros [Hc Hk]. rewrite (collides_collision w Hc).
    apply IH. now rewrite next_creation_run in Hk.
Qed.

Lemma returned_is_no_collision (w : state W) (c : string) :
  outcome (next_creation W w) = Return c ->
  collision (fst (next_reply W w)) = false /\
  creation_error (fst (next_reply W w)) = None /\
  reply_code (fst (next_reply W w)) (code (next_input W w)) = c.
Proof.
  rewrite next_creation_run. unfold outcome, collision. simpl.
  destruct (creation_error (fst (next_reply W w))); [discriminate|].
  intros H. injection H as <-. auto.
Qed.

Lemma other_error_is_no_collision (w : state W) (e : Error) :
  outcome (next_creation W w) = Throw e ->
  ~ says_taken (message e) ->
  collision (fst (next_reply W w)) = false /\
  creation_error (fst (next_reply W w)) = Some e.
Proof.
  rewrite next_creation_run. unfold outcome, collision. simpl.
  destruct (creation_error (fst (next_reply W w))) as [e'|]; [|discriminate].
  intros H Hn. injection H as ->. split; [now apply not_taken_spec | reflexivity].
Qed.

(** After [k] collisions the loop makes one attempt more, as long as
    there is budget for it. *)
Lemma collisions_are_retried (k : nat) (w wk : state W) :
  k < 5 ->
  after_collisions W k w = Some wk ->
  k + 1 <= creations (calls (mint_loop W 5 w)).
Proof.
  intros Hk Hafter.
  destruct (mint_loop_after_collisions W k (5 - k) w wk Hafter) as (d & Hd & Hrun).
  replace (k + (5 - k)) with 5 in Hrun by lia. rewrite Hrun. runs.
  destruct (5 - k) as [|m] eqn:Hm; [lia|].
  simpl mint_loop. rewrite bind_run, mint_attempt_run. runs.
  rewrite creations_app, Hd.
  destruct (match creation_error (fst (next_reply W wk)) with
            | Some e => if already_taken e then Return None else Throw e
            | None => _
            end) as [[c|]|e]; runs;
    change (creations (RandomBytes 3 :: DiscountCodeBasicCreate ?i :: ?d'))
      with (S (creations d')); lia.
Qed.

(** The run of an accepted request whose minting is reached and does
    not return a code. *)
Lemma mint_failed_run (req : Request) (email : string) (w : state W) (e : Error) :
  accepted W req email ->
  resolves_without_code W email w ->
  let look := getCustomerAndExistingCode W email w in
  let check := emailHasAnyOrders W email (world_after look) in
  let mint := mint_loop W 5 (world_after check) in
  outcome check = Return false ->
  (outcome mint = Throw e \/
   outcome mint = Return None /\ e = mkError "Could not mint unique code") ->
  handler W req w
  = (Return server_error, world_after mint,
     (calls look ++ OrdersQuery (orders_search email) :: calls mint
      ++ [ConsoleError e])%list).
Proof.
  intros Hacc (found & Hf & Hc). cbv zeta. intros Hcheck Hmint.
  rewrite (handler_without_code W req email w found Hacc Hf Hc). cbv zeta.
  rewrite issue_run. cbv zeta. rewrite Hcheck. cbv iota.
  destruct Hmint as [-> | [-> ->]]; reflexivity.
Qed.

Lemma creations_of_failed_run (email : string) (w : state W) (mint : list Event)
  (e : Error) :
  let look := getCustomerAndExistingCode W email w in
  creations (calls look ++ OrdersQuery (orders_search email) :: mint ++ [ConsoleError e])
  = creations mint /\
  last (calls look ++ OrdersQuery (orders_search email) :: mint ++ [ConsoleError e])%list
       (RandomBytes 0)
  = ConsoleError e.
Proof.
  cbv zeta. destruct (lookup_calls W email w) as [Hl _]. cbv zeta in Hl. split.
  - assert (H0 : creations (calls (getCustomerAndExistingCode W email w)) = 0)
      by (destruct Hl as [-> | ->]; reflexivity).
    rewrite creations_app, H0.
    change (creations (OrdersQuery (orders_search email) :: ?d)) with (creations d).
    rewrite creations_app. unfold creations at 2. simpl. lia.
  - rewrite app_comm_cons, app_assoc. apply last_last.
Qed.

(** C3.  Whatever the request and the world, at most five discount
    creations are requested, and every attempt draws three fresh bytes
    and requests the creation of the code made of them.  A creation that
    fails with a message saying, in whatever case, that the code [has
    already been taken] is a collision.  After [k < 5] collisions in a
    row one more attempt is made; when its creation succeeds the loop
    ends with the code it returned, and when it fails with a message
    that does not say so, that very error is thrown at once, logged, and
    the answer is the 500: in both cases at [k + 1] creations.  After
    five collisions in a row the loop gives up at five creations, and
    the request fails: the error logged last is [Could not mint unique
    code] and the answer is the 500. *)
Theorem minting_retries_only_collisions :
  (forall req w, creations (calls (handler W req w)) <= 5) /\
  (forall w,
      calls (mint_attempt W w)
      = [RandomBytes 3; DiscountCodeBasicCreate (next_input W w)] /\
      calls (mint_attempt W w) = RandomBytes 3 :: calls (next_creation W w)) /\
  (forall k w wk,
      k < 5 ->
      collided W k w wk ->
      k + 1 <= creations (calls (mint_loop W 5 w)) /\
      (forall c,
          outcome (next_creation W wk) = Return c ->
          outcome (mint_loop W 5 w) = Return (Some c) /\
          creations (calls (mint_loop W 5 w)) = k + 1) /\
      (forall e,
          outcome (next_creation W wk) = Throw e ->
          ~ says_taken (message e) ->
          outcome (mint_loop W 5 w) = Throw e /\
          creations (calls (mint_loop W 5 w)) = k + 1)) /\
  (forall req email w,
      accepted W req email ->
      resolves_without_code W email w ->
      let check :=
        emailHasAnyOrders W email (world_after (getCustomerAndExistingCode W email w)) in
      outcome check = Return false ->
      (forall k wk e,
          k < 5 ->
          collided W k (world_after check) wk ->
          outcome (next_creation W wk) = Throw e ->
          ~ says_taken (message e) ->
          outcome (handler W req w) = Return server_error /\
          creations (calls (handler W req w)) = k + 1 /\
          last (calls (handler W req w)) (RandomBytes 0) = ConsoleError e) /\
      (forall w5,
          collided W 5 (world_after check) w5 ->
          outcome (mint_loop W 5 (world_after check)) = Return None /\
          outcome (handler W req w) = Return server_error /\
          creations (calls (handler W req w)) = 5 /\
          last (calls (handler W req w)) (RandomBytes 0)
          = ConsoleError (mkError "Could not mint unique code"))).
Proof.
  assert (Hdecided : forall k w wk,
             k < 5 -> collided W k w wk ->
             k + 1 <= creations (calls (mint_loop W 5 w)) /\
             (forall c,
                 outcome (next_creation W wk) = Return c ->
                 outcome (mint_loop W 5 w) = Return (Some c) /\
                 creations (calls (mint_loop W 5 w)) = k + 1) /\
             (forall e,
                 outcome (next_creation W wk) = Throw e ->
                 ~ says_taken (message e) ->
                 outcome (mint_loop W 5 w) = Throw e /\
                 creations (calls (mint_loop W 5 w)) = k + 1)).
  { intros k w wk Hk Hcol. apply collided_after_collisions in Hcol.
    split; [now apply collisions_are_retried with wk|]. split.
    - intros c Hc. destruct (returned_is_no_collision wk c Hc) as (Hn & He & Hr).
      destruct (mint_loop_decided W k w wk Hk Hcol Hn) as [Ho Hcr].
      rewrite He, Hr in Ho. now split.
    - intros e He Hnot. destruct (other_error_is_no_collision wk e He Hnot) as (Hn & Herr).
      destruct (mint_loop_decided W k w wk Hk Hcol Hn) as [Ho Hcr].
      rewrite Herr in Ho. now split. }
  split; [|split; [|split]].
  - intros req w. apply (obeys_handler W req w).
  - intros w. rewrite mint_attempt_run, next_creation_run. now split.
  - exact Hdecided.
  - intros req email w Hacc Hres. cbv zeta. intros Hcheck. split.
    + intros k wk e Hk Hcol He Hnot.
      destruct (Hdecided k _ wk Hk Hcol) as (_ & _ & Hthrow).
      destruct (Hthrow e He Hnot) as [Ho Hcr].
      rewrite (mint_failed_run req email w e Hacc Hres Hcheck (or_introl Ho)). runs.
      destruct (creations_of_failed_run email w
                  (calls (mint_loop W 5
                     (world_after (emailHasAnyOrders W email
                        (world_after (getCustomerAndExistingCode W email w)))))) e)
        as [H1 H2].
      split; [reflexivity|]. split; [now rewrite H1 | exact H2].
    + intros w5 Hcol. apply collided_after_collisions in Hcol.
      destruct (mint_loop_exhausted W _ _ Hcol) as (Hout & _ & Hn).
      split; [exact Hout|].
      rewrite (mint_failed_run req email w (mkError "Could not mint unique code")
                 Hacc Hres Hcheck (or_intror (conj Hout eq_refl))). runs.
      destruct (creations_of_failed_run email w
                  (calls (mint_loop W 5
                     (world_after (emailHasAnyOrders W email
                        (world_after (getCustomerAndExistingCode W email w))))))
                  (mkError "Could not mint unique code"))
        as [H1 H2].
      split; [reflexivity|]. split; [now rewrite H1 | exact H2].
Qed.

End Retry.

Lemma shop_message_says_taken : says_taken "Code has already been taken".
Proof.
  exists (Js.chars "Code "), (Js.chars "has already been taken"), [].
  split; [reflexivity|]. repeat (constructor; [now left|]). constructor.
Qed.

Lemma shop_colliding_collides (s : Shop.t) :
  Shop.graphql_up s = true ->
  Shop.entropy s = [] ->
  Shop.discounts s = ["WELCOME-000000"] ->
  collides shop s /\ world_after (next_creation shop s) = s.
Proof.
  intros Hup He Hd.
  assert (H : next_creation shop s
              = (Throw (mkError "Code has already been taken"), s,
                 [DiscountCodeBasicCreate
                    (discount_input "2024-07-01T00:00:00.000Z" "WELCOME-000000")])).
  { unfold next_creation, createOneTimeTenPercent, shopifyGQL, bind, perform, observe.
    cbn [randomBytes3 shop Shop.world fetch_discountCodeBasicCreate now_toISOString].
    unfold Shop.random_bytes3. rewrite He. cbn [fst snd].
    unfold Shop.discount_create. rewrite Hup, Hd. reflexivity. }
  unfold collides. rewrite H. split; [|reflexivity].
  exists (mkError "Code has already been taken"). split; [reflexivity|].
  exact shop_message_says_taken.
Qed.

(** C3: five collisions exhaust the loop; one collision is retried; a
    platform out of service is not. *)
Lemma minting_witness :
  (outcome (handler shop alice shop_colliding) = Return server_error /\
   creations (calls (handler shop alice shop_colliding)) = 5 /\
   last (calls (handler shop alice shop_colliding)) (RandomBytes 0)
   = ConsoleError (mkError "Could not mint unique code")) /\
  (outcome (mint_loop shop 5 shop_colliding_once) = Return (Some "WELCOME-9F2A3C") /\
   creations (calls (mint_loop shop 5 shop_colliding_once)) = 2) /\
  (outcome (mint_loop shop_discounts_down 5 shop_fresh) = Throw (mkError "fetch failed") /\
   creations (calls (mint_loop shop_discounts_down 5 shop_fresh)) = 1).
Proof.
  destruct (minting_retries_only_collisions shop) as (_ & _ & Hdecided & Hhandler).
  destruct (minting_retries_only_collisions shop_discounts_down) as (_ & _ & Hdown & _).
  destruct (shop_colliding_collides shop_colliding eq_refl eq_refl eq_refl) as [Hc Hw].
  split; [|split].
  - destruct (Hhandler alice "alice@example.com" shop_colliding alice_accepted)
      as (_ & Hexhausted).
    + eexists. split; reflexivity.
    + reflexivity.
    + destruct (Hexhausted shop_colliding) as (_ & H1 & H2 & H3).
      * change (collided shop 5 shop_colliding shop_colliding).
        simpl. rewrite !Hw. repeat (split; [exact Hc|]). reflexivity.
      * repeat split; assumption.
  - destruct (Hdecided 1 shop_colliding_once
                (Shop.mk [Shop.mkCustomer "gid://shopify/Customer/1" "alice@example.com" None]
                   [] ["WELCOME-000000"] [(x9f, x2a, x3c)] true true []))
      as (_ & Hret & _).
    + lia.
    + split; [|reflexivity].
      exists (mkError "Code has already been taken"). split; [reflexivity|].
      exact shop_message_says_taken.
    + exact (Hret "WELCOME-9F2A3C" eq_refl).
  - destruct (Hdown 0 shop_fresh shop_fresh) as (_ & _ & Hthrow).
    + lia.
    + reflexivity.
    + apply (Hthrow (mkError "fetch failed")); [reflexivity|].
      apply not_taken_spec. reflexivity.
Defined.
